(** * Media backend: asset store and preview selector

    A shallow embedding of [src/main.py]: the template catalog, the upload
    endpoint [upload_files], the mock processor [instant_edit] and the
    diagnostics endpoint [test_database].

    Modelling conventions
    - a Python [str] is the [string] of its UTF-8 bytes; indices, slices and
      lengths in [PyStr] count bytes, which is what [endswith], [rfind] of an
      ASCII character and the slices of [os.path.splitext] need, and
      [take_chars] counts characters where the program slices a message;
    - [str.lower] is the Unicode-aware case mapping of the interpreter; it
      is not part of the repository and is taken as a parameter ([StrLower])
      with the facts about it that the proofs use;
    - [os.path] is the POSIX flavour (separator [/], no alternative
      separator);
    - a call of an endpoint returns a value, raises [HTTPException], or
      raises another exception ([Raised]);
    - the upload directory is a finite map from paths to file contents;
      which paths the system refuses to open and which writes fail are
      inputs, carried in the state; [uuid.uuid4()] draws from a supply of
      128-bit integers carried in the state;
    - what [from database import db] does and what the environment
      variables hold are inputs of [test_database]. *)

From Stdlib Require Import ZArith NArith Ascii String List Bool Lia.
From stdpp Require Import base option list strings gmap.

Import ListNotations.
Local Open Scope string_scope.
Local Open Scope list_scope.

(** ** Python string primitives *)

Module PyStr.

(** [s[n:]] *)
Fixpoint drop (n : nat) (s : string) : string :=
  match n, s with
  | O, _ => s
  | S _, EmptyString => EmptyString
  | S k, String _ s' => drop k s'
  end.

(** [s[:n]] *)
Fixpoint take (n : nat) (s : string) : string :=
  match n, s with
  | O, _ => EmptyString
  | S _, EmptyString => EmptyString
  | S k, String a s' => String a (take k s')
  end.

(** [not s]: the empty string is the only falsy string. *)
Definition falsy (s : string) : bool :=
  match s with
  | EmptyString => true
  | String _ _ => false
  end.

Definition is_upper (c : ascii) : bool :=
  let n := N_of_ascii c in ((65 <=? n) && (n <=? 90))%N.

Definition lower_char (c : ascii) : ascii :=
  if is_upper c then ascii_of_N (N_of_ascii c + 32) else c.

(** The case folding of the letters [A]..[Z] alone: what [s.lower()] is on
    an ASCII string. *)
Fixpoint ascii_lower (s : string) : string :=
  match s with
  | EmptyString => EmptyString
  | String a s' => String (lower_char a) (ascii_lower s')
  end.

(** [s.isascii()] *)
Fixpoint is_ascii (s : string) : bool :=
  match s with
  | EmptyString => true
  | String a s' => (N_of_ascii a <? 128)%N && is_ascii s'
  end.

(** [s.endswith(suf)]: the last [len(suf)] characters of [s] are [suf]. *)
Definition endswith (s suf : string) : bool :=
  let n := String.length s in
  let m := String.length suf in
  (m <=? n)%nat && String.eqb (drop (n - m) s) suf.

(** [s.rfind(c)] for a one-character needle: the highest index holding
    [c], or [-1]. *)
Fixpoint rfind (c : ascii) (s : string) : Z :=
  match s with
  | EmptyString => (-1)%Z
  | String a s' =>
      let r := rfind c s' in
      if (0 <=? r)%Z then (r + 1)%Z
      else if Ascii.eqb a c then 0%Z else (-1)%Z
  end.

(** [s.rstrip(c)] for a one-character set. *)
Fixpoint rstrip (c : ascii) (s : string) : string :=
  match s with
  | EmptyString => EmptyString
  | String a s' =>
      match rstrip c s' with
      | EmptyString => if Ascii.eqb a c then EmptyString else String a EmptyString
      | r => String a r
      end
  end.

(** [c in s] on characters, as a boolean. *)
Fixpoint mem (c : ascii) (s : string) : bool :=
  match s with
  | EmptyString => false
  | String a s' => Ascii.eqb a c || mem c s'
  end.

(** A byte [10xxxxxx] continues the character begun before it. *)
Definition is_continuation (c : ascii) : bool :=
  let n := N_of_ascii c in ((128 <=? n) && (n <? 192))%N.

(** [s[:n]] counted in characters: the bytes of the first [n] characters. *)
Fixpoint take_chars (n : nat) (s : string) : string :=
  match s with
  | EmptyString => EmptyString
  | String c s' =>
      if is_continuation c then String c (take_chars n s')
      else match n with
           | O => EmptyString
           | S k => String c (take_chars k s')
           end
  end.

End PyStr.

(** ** [str.lower]

    The case mapping of the interpreter, with what is used of it:
    on ASCII text it folds [A]..[Z]; an ASCII tail is folded letter by
    letter whatever precedes it; it maps a dot to a dot and produces no dot
    and no separator out of other characters; folding [A]..[Z] first does
    not change its result. *)
Class StrLower : Type := {
  lower : string -> string;
  lower_ascii : forall s,
    PyStr.is_ascii s = true -> lower s = PyStr.ascii_lower s;
  lower_ascii_suffix : forall p x,
    PyStr.is_ascii x = true ->
    exists p', lower (p +:+ x) = p' +:+ PyStr.ascii_lower x;
  lower_extension : forall r,
    PyStr.mem "." r = false -> PyStr.mem "/" r = false ->
    exists r', lower (String "." r) = String "." r' /\
               PyStr.mem "." r' = false /\ PyStr.mem "/" r' = false;
  lower_fold : forall s, lower (PyStr.ascii_lower s) = lower s
}.

(** ** Outcomes of calls *)

(** The exceptions the program meets, each with its [str]: [ImportError]
    stands for that class and its subclasses, [OtherException] for every
    class not named here. *)
Inductive exn : Type :=
| ImportError (msg : string)
| ValueError (msg : string)
| OSError (msg : string)
| OtherException (msg : string).

(** [str(e)] *)
Definition exn_str (e : exn) : string :=
  match e with
  | ImportError msg | ValueError msg | OSError msg | OtherException msg => msg
  end.

(** What a call may do: return, or raise. *)
Inductive outcome (A : Type) : Type :=
| Returns (a : A)
| Raises (e : exn).

Arguments Returns {A} a.
Arguments Raises {A} e.

(** What calling an endpoint does: it returns a value, raises
    [HTTPException(status_code, detail)], or lets another exception out. *)
Inductive result (A : Type) : Type :=
| Ok (a : A)
| HTTPException (status_code : Z) (detail : string)
| Raised (e : exn).

Arguments Ok {A} a.
Arguments HTTPException {A} status_code detail.
Arguments Raised {A} e.

(** ** Template catalog *)

Inductive PresetValue : Type :=
| PStr (s : string)
| PBool (b : bool).

Record Template : Type := mkTemplate {
  id : string;
  name : string;
  aspect_ratio : string;
  description : string;
  preset : list (string * PresetValue)
}.

(** The bullet of the display names is U+2022, three bytes in UTF-8. *)
Definition bullet : string :=
  String (ascii_of_N 226) (String (ascii_of_N 128) (String (ascii_of_N 162) "")).

Definition reel_916_bold : Template :=
  mkTemplate "reel-916-bold"
    ("Reel 9:16 " +:+ bullet +:+ " Bold")
    "9:16"
    "Vertical format with bold headline and punchy cuts."
    [("font", PStr "Inter ExtraBold"); ("color", PStr "#3b82f6");
     ("lower_third", PBool true)].

Definition corporate_169_clean : Template :=
  mkTemplate "corporate-169-clean"
    ("Corporate 16:9 " +:+ bullet +:+ " Clean")
    "16:9"
    "Clean lower-thirds, logo bug, subtle transitions."
    [("font", PStr "Inter Medium"); ("color", PStr "#22d3ee");
     ("lower_third", PBool true)].

Definition event_11_pop : Template :=
  mkTemplate "event-11-pop"
    ("Event Montage 1:1 " +:+ bullet +:+ " Pop")
    "1:1"
    "Square montage with beat-matched cuts and stickers."
    [("font", PStr "Inter Black"); ("color", PStr "#f59e0b");
     ("stickers", PBool true)].

Definition TEMPLATES : list Template :=
  [reel_916_bold; corporate_169_clean; event_11_pop].

Definition list_templates : list Template := TEMPLATES.

(** ** Instant edit (mock processor) *)

Record InstantEditRequest : Type := mkRequest {
  template_id : string;
  assets : list string;
  title : option string;
  subtitle : option string;
  brand_color : option string;
  logo_url : option string
}.

Record InstantEditResponse : Type := mkResponse {
  template : Template;
  preview_type : string;
  preview_url : string;
  used_assets : list string;
  notes : string
}.

Definition video_exts : list string := [".mp4"; ".mov"; ".mkv"; ".webm"].
Definition image_exts : list string := [".jpg"; ".jpeg"; ".png"; ".gif"].

Definition PLACEHOLDER_URL : string :=
  "https://placehold.co/1280x720?text=Instant+Preview".

Definition NOTES : string :=
  "Instant edit applied. This preview uses your first uploaded media. " +:+
  "In a full pipeline, we would trim, add lower-thirds, color grade, " +:+
  "and export in the template's aspect ratio.".

(** [next((t for t in TEMPLATES if t.id == tid), None)] *)
Definition find_template (tid : string) : option Template :=
  List.find (fun t => String.eqb (id t) tid) TEMPLATES.

Section Processor.

Context {L : StrLower}.

(** [any(l.endswith(e) for e in exts)] with [l = url.lower()] *)
Definition matches (exts : list string) (url : string) : bool :=
  let l := lower url in
  existsb (fun e => PyStr.endswith l e) exts.

(** One [for url in req.assets: ... break] loop over the two mutable
    variables [(preview_url, preview_type)]. *)
Fixpoint scan (exts : list string) (kind : string) (urls : list string)
    (st : string * string) : string * string :=
  match urls with
  | [] => st
  | url :: rest =>
      if matches exts url then (url, kind)
      else scan exts kind rest st
  end.

(** The body of [instant_edit] after the two validations. *)
Definition select_preview (urls : list string) : string * string :=
  let st := ("", "unknown") in
  let st := scan video_exts "video" urls st in
  let st := if PyStr.falsy (fst st) then scan image_exts "image" urls st else st in
  if PyStr.falsy (fst st) then (PLACEHOLDER_URL, "placeholder") else st.

Definition instant_edit (req : InstantEditRequest) : result InstantEditResponse :=
  match find_template (template_id req) with
  | None => HTTPException 404 "Template not found"
  | Some tpl =>
      match assets req with
      | [] => HTTPException 400 "No assets provided"
      | _ :: _ =>
          let st := select_preview (assets req) in
          Ok (mkResponse tpl (snd st) (fst st) (assets req) NOTES)
      end
  end.

End Processor.

(** ** Upload endpoint *)

(** *** [os.path] (POSIX) *)

(** The [while filenameIndex < dotIndex] loop of [genericpath._splitext]:
    [n] is the number of iterations left. *)
Fixpoint skip_leading_dots (p : string) (dotIndex : Z) (n : nat)
    (filenameIndex : Z) : string * string :=
  match n with
  | O => (p, "")
  | S k =>
      (* p[filenameIndex:filenameIndex+1] != extsep *)
      if negb (String.eqb (PyStr.take 1 (PyStr.drop (Z.to_nat filenameIndex) p)) ".")
      then (PyStr.take (Z.to_nat dotIndex) p, PyStr.drop (Z.to_nat dotIndex) p)
      else skip_leading_dots p dotIndex k (filenameIndex + 1)
  end.

(** [os.path.splitext(p)] *)
Definition splitext (p : string) : string * string :=
  let sepIndex := PyStr.rfind "/" p in
  let dotIndex := PyStr.rfind "." p in
  if (sepIndex <? dotIndex)%Z then
    let filenameIndex := (sepIndex + 1)%Z in
    skip_leading_dots p dotIndex (Z.to_nat (dotIndex - filenameIndex)) filenameIndex
  else (p, "").

(** [os.path.join(a, b)] *)
Definition path_join (a b : string) : string :=
  match b with
  | String "/" _ => b
  | _ => if PyStr.falsy a || PyStr.endswith a "/" then a +:+ b
         else a +:+ "/" +:+ b
  end.

(** *** [uuid.uuid4().hex] *)

Definition hexdigits : string := "0123456789abcdef".

Definition hex_digit (d : N) : ascii :=
  match String.get (N.to_nat d) hexdigits with
  | Some c => c
  | None => "0"%char
  end.

(** The [k] low hexadecimal digits of [n], most significant first, in front
    of [acc]. *)
Fixpoint hex_fixed (k : nat) (n : N) (acc : string) : string :=
  match k with
  | O => acc
  | S k' => hex_fixed k' (n / 16)%N (String (hex_digit (n mod 16)%N) acc)
  end.

(** ['%032x' % n] for a 128-bit [n], the integer value of a UUID (on a
    larger [n] Python would print more digits; a UUID never is). *)
Definition uuid_hex (n : N) : string := hex_fixed 32 n "".

Arguments uuid_hex : simpl never.

(** *** The world the endpoint acts on *)

Record World : Type := mkWorld {
  disk : gmap string (list Byte.byte);     (* path -> contents *)
  os_refuses : string -> option string;    (* the [OSError] with which the system
                                              refuses to open a path for writing *)
  write_fails : string -> nat -> option string;
                                           (* the [OSError] with which the [k]-th
                                              write to a path fails *)
  uuid_supply : nat -> N;                  (* the [k]-th UUID the generator yields *)
  uuid_drawn : nat                         (* how many have been drawn *)
}.

Definition set_disk (d : gmap string (list Byte.byte)) (w : World) : World :=
  mkWorld d (os_refuses w) (write_fails w) (uuid_supply w) (uuid_drawn w).

Definition IO (A : Type) : Type := World -> outcome A * World.

Definition ret {A} (a : A) : IO A := fun w => (Returns a, w).

Definition raise {A} (e : exn) : IO A := fun w => (Raises e, w).

Definition bind {A B} (m : IO A) (k : A -> IO B) : IO B :=
  fun w =>
    match m w with
    | (Returns a, w') => k a w'
    | (Raises e, w') => (Raises e, w')
    end.

Notation "x <~ m ;; k" := (bind m (fun x => k))
  (at level 100, m at next level, right associativity).

Definition uuid4_hex : IO string :=
  fun w => (Returns (uuid_hex (uuid_supply w (uuid_drawn w))),
            mkWorld (disk w) (os_refuses w) (write_fails w) (uuid_supply w)
              (S (uuid_drawn w))).

(** [await f.read(n)]: at most [n] bytes, and what is left of the stream
    (the upload was spooled before the endpoint is called). *)
Fixpoint read (n : N) (stream : list Byte.byte) : list Byte.byte * list Byte.byte :=
  match stream with
  | [] => ([], [])
  | b :: rest =>
      if (n =? 0)%N then ([], stream)
      else let (chunk, remaining) := read (n - 1) rest in (b :: chunk, remaining)
  end.

Definition CHUNK : N := 1024 * 1024.

(** [while True: chunk = await f.read(CHUNK); if not chunk: break;
    out.write(chunk)], with [out] the bytes written so far and [k] the
    number of writes done; [faults] tells which write fails.  The result is
    what the file holds when the loop is left, and the error that ended it,
    if one did. *)
Fixpoint copy_loop (faults : nat -> option string) (fuel : nat)
    (stream out : list Byte.byte) (k : nat) : list Byte.byte * option string :=
  match fuel with
  | O => (out, None)
  | S fuel' =>
      match read CHUNK stream with
      | ([], _) => (out, None)
      | (chunk, remaining) =>
          match faults k with
          | Some msg => (out, Some msg)
          | None => copy_loop faults fuel' remaining (out ++ chunk) (S k)
          end
      end
  end.

Definition NUL : ascii := ascii_of_N 0.

(** [with open(path, "wb") as out: ...]: [open] raises [ValueError] on a
    path with a null character and [OSError] when the system refuses the
    path; otherwise the file is created or truncated and filled by the copy
    loop, and keeps what was written if a write fails. *)
Definition write_upload (path : string) (stream : list Byte.byte) : IO unit :=
  fun w =>
    if PyStr.mem NUL path then (Raises (ValueError "embedded null byte"), w)
    else
      match os_refuses w path with
      | Some msg => (Raises (OSError msg), w)
      | None =>
          let opened := <[path := []]> (disk w) in
          match copy_loop (write_fails w path) (S (length stream)) stream [] 0 with
          | (written, None) =>
              (Returns tt, set_disk (<[path := written]> opened) w)
          | (written, Some msg) =>
              (Raises (OSError msg), set_disk (<[path := written]> opened) w)
          end
      end.

(** *** The endpoint *)

Record UploadFile : Type := mkUploadFile {
  filename : option string;
  content_type : option string;
  body : list Byte.byte
}.

Record Request : Type := mkHttpRequest { base_url : string }.

Record SavedFile : Type := mkSavedFile {
  original : option string;
  stored_as : string;
  url : string;
  mime : option string
}.

Record UploadResponse : Type := mkUploadResponse {
  count : Z;
  files : list SavedFile
}.

Definition KNOWN_EXTS : list string :=
  [".mp4"; ".mov"; ".mkv"; ".webm";
   ".jpg"; ".jpeg"; ".png"; ".gif";
   ".pdf"; ".zip"; ".wav"; ".mp3"; ".aac"; ".m4a"].

(** [ext in KNOWN_EXTS] *)
Definition known_ext (ext : string) : bool :=
  existsb (String.eqb ext) KNOWN_EXTS.

Section Upload.

Context {L : StrLower}.

(** The three assignments that lead from the filename to [safe_ext]. *)
Definition safe_ext_of (fname : option string) : string :=
  let ext := snd (splitext (default "" fname)) in
  let ext := if PyStr.falsy ext then "" else lower ext in
  if known_ext ext then ext else ext.

(** [UPLOAD_DIR = os.path.abspath("uploads")], fixed at start-up. *)
Variable UPLOAD_DIR : string.

(** One iteration of [for f in files]. *)
Definition store_one (base : string) (f : UploadFile) : IO SavedFile :=
  let safe_ext := safe_ext_of (filename f) in
  tok <~ uuid4_hex ;;
  let fname := tok +:+ safe_ext in
  let path := path_join UPLOAD_DIR fname in
  _ <~ write_upload path (body f) ;;
  ret (mkSavedFile (filename f) fname (base +:+ "/uploads/" +:+ fname)
         (content_type f)).

Fixpoint store_all (base : string) (fs : list UploadFile)
    (saved : list SavedFile) : IO (list SavedFile) :=
  match fs with
  | [] => ret saved
  | f :: rest =>
      e <~ store_one base f ;;
      store_all base rest (saved ++ [e])
  end.

Definition upload_files (request : Request) (fs : list UploadFile) (w : World)
    : result UploadResponse * World :=
  match fs with
  | [] => (HTTPException 400 "No files uploaded", w)
  | _ :: _ =>
      let base := PyStr.rstrip "/" (base_url request) in
      match store_all base fs [] w with
      | (Returns saved, w') =>
          (Ok (mkUploadResponse (Z.of_nat (length saved)) saved), w')
      | (Raises e, w') => (Raised e, w')
      end
  end.

End Upload.

(** ** Greeting and diagnostics endpoints *)

Definition read_root : list (string * string) :=
  [("message", "Hello from FastAPI Backend!")].

Definition hello : list (string * string) :=
  [("message", "Hello from the backend API!")].

(** The object [database.db], as far as [test_database] looks at it. *)
Record Database : Type := mkDatabase {
  (* [hasattr(db, 'name')] and [db.name]: no such attribute, its value, or
     an exception out of the attribute access *)
  db_name : outcome (option string);
  list_collection_names : outcome (list string)
}.

Record Environment : Type := mkEnvironment {
  (* [from database import db]: an exception, or [db], which may be [None] *)
  database_module : outcome (option Database);
  getenv : string -> option string
}.

(** The [response] dictionary; the two fields that start at [None] are
    options. *)
Record DbReport : Type := mkDbReport {
  backend : string;
  database : string;
  database_url : option string;
  database_name : option string;
  connection_status : string;
  collections : list string
}.

Definition set_database (v : string) (r : DbReport) : DbReport :=
  mkDbReport (backend r) v (database_url r) (database_name r)
    (connection_status r) (collections r).

Definition set_database_url (v : string) (r : DbReport) : DbReport :=
  mkDbReport (backend r) (database r) (Some v) (database_name r)
    (connection_status r) (collections r).

Definition set_database_name (v : string) (r : DbReport) : DbReport :=
  mkDbReport (backend r) (database r) (database_url r) (Some v)
    (connection_status r) (collections r).

Definition set_connection_status (v : string) (r : DbReport) : DbReport :=
  mkDbReport (backend r) (database r) (database_url r) (database_name r)
    v (collections r).

Definition set_collections (v : list string) (r : DbReport) : DbReport :=
  mkDbReport (backend r) (database r) (database_url r) (database_name r)
    (connection_status r) v.

(** [bool(os.getenv(k))]: set, and not to the empty string. *)
Definition env_truthy (v : option string) : bool :=
  match v with
  | None => false
  | Some s => negb (PyStr.falsy s)
  end.

(** The body of the outer [try]: the dictionary as the body leaves it, and
    the exception that left the body, if one did. *)
Definition probe_database (env : Environment) (response : DbReport)
    : DbReport * option exn :=
  match database_module env with
  | Raises e => (response, Some e)
  | Returns None => (set_database "⚠️  Available but not initialized" response, None)
  | Returns (Some db) =>
      let response := set_database "✅ Available" response in
      let response := set_database_url "✅ Configured" response in
      match db_name db with
      | Raises e => (response, Some e)
      | Returns name_attr =>
          let response :=
            set_database_name (default "✅ Connected" name_attr) response in
          let response := set_connection_status "Connected" response in
          match list_collection_names db with
          | Returns cols =>
              let response := set_collections (take 10 cols) response in
              (set_database "✅ Connected & Working" response, None)
          | Raises e =>
              (set_database ("⚠️  Connected but Error: " +:+ PyStr.take_chars 50 (exn_str e))
                 response, None)
          end
      end
  end.

Definition test_database (env : Environment) : DbReport :=
  let response :=
    mkDbReport "✅ Running" "❌ Not Available" None None "Not Connected" [] in
  let response :=
    match probe_database env response with
    | (response, None) => response
    | (response, Some (ImportError _)) => set_database "❌ Database module not found (run enable-database first)" response
    | (response, Some e) =>
        set_database ("❌ Error: " +:+ PyStr.take_chars 50 (exn_str e)) response
    end in
  (* Check environment variables *)
  let response :=
    set_database_url
      (if env_truthy (getenv env "DATABASE_URL") then "✅ Set" else "❌ Not Set")
      response in
  let response :=
    set_database_name
      (if env_truthy (getenv env "DATABASE_NAME") then "✅ Set" else "❌ Not Set")
      response in
  response.

(** ** Vocabulary of the statements *)

Section Vocabulary.

Context {L : StrLower}.

(** The lower-cased form of [u] literally ends with one of [exts]. *)
Definition ends_with_one_of (exts : list string) (u : string) : Prop :=
  ∃ e p, e ∈ exts ∧ lower u = p +:+ e.

(** A recognised extension of either kind. *)
Definition recognised (u : string) : Prop :=
  ends_with_one_of video_exts u ∨ ends_with_one_of image_exts u.

(** The entry [upload_files] reports for file [f] stored under token [tok]. *)
Definition saved_entry (base tok : string) (f : UploadFile) : SavedFile :=
  let fname := tok +:+ safe_ext_of (filename f) in
  mkSavedFile (filename f) fname (base +:+ "/uploads/" +:+ fname) (content_type f).

End Vocabulary.

(** [u] is the first element of [urls], in list order, that satisfies [P]. *)
Definition first_such (P : string → Prop) (urls : list string) (u : string) : Prop :=
  ∃ pre post, urls = pre ++ u :: post ∧ Forall (λ v, ¬ P v) pre ∧ P u.

(** The extension of a path, as [os.path.splitext] sees it. *)
Definition extension (p : string) : string := snd (splitext p).

(** What an extension looks like: empty, or a dot followed by characters
    that are neither dots nor separators. *)
Definition ext_shaped (e : string) : Prop :=
  e = "" ∨ ∃ r, e = String "." r ∧
    PyStr.mem "." r = false ∧ PyStr.mem "/" r = false.

(** The tokens the next [n] calls of [uuid4().hex] return in world [w]. *)
Definition tokens_drawn (w : World) (n : nat) : list string :=
  (λ k, uuid_hex (uuid_supply w k)) <$> seq (uuid_drawn w) n.

(** The entries [upload_files] reports for the files [fs] in world [w]. *)
Definition upload_entries {L : StrLower} (base : string) (w : World)
    (fs : list UploadFile) : list SavedFile :=
  zip_with (saved_entry base) (tokens_drawn w (length fs)) fs.

(** The path a reported entry was written to. *)
Definition storage_path (upload_dir : string) (e : SavedFile) : string :=
  path_join upload_dir (stored_as e).

(** The writes of one upload, in order, applied to a disk. *)
Definition write_all (upload_dir : string) (es : list SavedFile)
    (fs : list UploadFile) (d : gmap string (list Byte.byte))
    : gmap string (list Byte.byte) :=
  foldl (λ d ef, <[storage_path upload_dir ef.1 := body ef.2]> d) d (zip es fs).

(** The world after the files [fs] were stored as the entries [es]. *)
Definition world_after (upload_dir : string) (es : list SavedFile)
    (fs : list UploadFile) (w : World) : World :=
  mkWorld (write_all upload_dir es fs (disk w)) (os_refuses w) (write_fails w)
    (uuid_supply w) (uuid_drawn w + length fs).

(** Storage takes a path: it holds no null character, the system does not
    refuse it, and no write to it fails. *)
Definition accepts (w : World) (path : string) : Prop :=
  PyStr.mem NUL path = false ∧ os_refuses w path = None ∧
  ∀ k, write_fails w path k = None.

(** Storage takes every file of the batch [fs]: it accepts the path under
    which the [i]-th file is to be written, the upload directory joined
    with the [i]-th token and the lower-cased extension of the file's
    name. *)
Definition storage_takes {L : StrLower} (upload_dir : string) (w : World)
    (fs : list UploadFile) : Prop :=
  ∀ i f tok, fs !! i = Some f → tokens_drawn w (length fs) !! i = Some tok →
    accepts w (path_join upload_dir
                 (tok +:+ lower (extension (default "" (filename f))))).

(** The upload directory as the prefix of the paths inside it. *)
Definition as_directory (d : string) : string :=
  if PyStr.falsy d then "" else if PyStr.endswith d "/" then d else d +:+ "/".

(** The extension of a path described without the code: take the last
    component of the path (what follows the last separator), drop its
    leading dots; if a dot is left, the extension runs from the last dot to
    the end, and otherwise there is none. *)

(** What follows the last separator of [p]. *)
Fixpoint last_component (p : string) : string :=
  match p with
  | EmptyString => EmptyString
  | String a s =>
      if PyStr.mem "/" s then last_component s
      else if Ascii.eqb a "/" then s else p
  end.

(** [s.lstrip('.')] *)
Fixpoint strip_dots (s : string) : string :=
  match s with
  | EmptyString => EmptyString
  | String a s' => if Ascii.eqb a "." then strip_dots s' else s
  end.

Fixpoint all_dots (s : string) : bool :=
  match s with
  | EmptyString => true
  | String a s' => Ascii.eqb a "." && all_dots s'
  end.

Definition extension_of (p e : string) : Prop :=
  let name := strip_dots (last_component p) in
  (PyStr.mem "." name = false ∧ e = "") ∨
  (∃ stem r, name = stem +:+ String "." r ∧ PyStr.mem "." r = false ∧
             e = String "." r).

(** The world after one file was stored under the entry [e]. *)
Definition stored_one (upload_dir : string) (e : SavedFile) (f : UploadFile)
    (w : World) : World :=
  mkWorld (<[storage_path upload_dir e := body f]> (disk w)) (os_refuses w)
    (write_fails w) (uuid_supply w) (S (uuid_drawn w)).

(** The probe found a database object, read its name and listed its
    collections. *)
Definition probe_lists (env : Environment) (cols : list string) : Prop :=
  ∃ db name_attr, database_module env = Returns (Some db) ∧
                  db_name db = Returns name_attr ∧
                  list_collection_names db = Returns cols.

(** The probe found a database object and read its name. *)
Definition probe_connects (env : Environment) : Prop :=
  ∃ db name_attr, database_module env = Returns (Some db) ∧
                  db_name db = Returns name_attr.

(** * Properties *)

(** ** Strings *)

Module PyStrFacts.
Import PyStr.

(** stdpp keeps [String.append] from unfolding under [simpl]. *)
Lemma app_cons (a : ascii) (p q : string) :
  String a p +:+ q = String a (p +:+ q).
Proof. reflexivity. Qed.

Lemma app_nil_l (q : string) : "" +:+ q = q.
Proof. reflexivity. Qed.

Lemma length_app (p q : string) :
  String.length (p +:+ q) = String.length p + String.length q.
Proof.
  induction p as [|a p IH]; [done |].
  rewrite app_cons; simpl. by rewrite IH.
Qed.

Lemma drop_app_length (p q : string) : drop (String.length p) (p +:+ q) = q.
Proof. induction p as [|a p IH]; simpl; [by destruct q | done]. Qed.

Lemma take_app_length (p q : string) : take (String.length p) (p +:+ q) = p.
Proof.
  induction p as [|a p IH]; [by destruct q |].
  rewrite app_cons; simpl. by rewrite IH.
Qed.

Lemma take_drop (n : nat) (s : string) : take n s +:+ drop n s = s.
Proof.
  revert n; induction s as [|a s IH]; intros [|n]; simpl; try done.
  by rewrite app_cons, IH.
Qed.

Lemma length_drop (n : nat) (s : string) :
  String.length (drop n s) = String.length s - n.
Proof. revert n; induction s as [|a s IH]; intros [|n]; simpl; auto. Qed.

Lemma length_take (n : nat) (s : string) :
  (n ≤ String.length s)%nat → String.length (take n s) = n.
Proof.
  revert n; induction s as [|a s IH]; intros [|n]; simpl; intros Hn;
    try done; try lia.
  rewrite IH; lia.
Qed.

Lemma app_assoc (p q r : string) : (p +:+ q) +:+ r = p +:+ q +:+ r.
Proof. induction p as [|a p IH]; [done | by rewrite !app_cons, IH]. Qed.

Lemma app_inv_length (p p' q q' : string) :
  String.length p = String.length p' → p +:+ q = p' +:+ q' → p = p' ∧ q = q'.
Proof.
  revert p'; induction p as [|a p IH]; intros [|a' p']; simpl; try done.
  rewrite !app_cons. intros Hlen Heq. injection Heq as -> Heq.
  destruct (IH p') as [-> ->]; [lia | done | done].
Qed.

(** [endswith] decides the literal suffix relation. *)
Lemma endswith_spec (s suf : string) :
  endswith s suf = true ↔ ∃ p, s = p +:+ suf.
Proof.
  unfold endswith; rewrite andb_true_iff, Nat.leb_le, String.eqb_eq; split.
  - intros [Hle Hdrop]. exists (take (String.length s - String.length suf) s).
    rewrite <- (take_drop (String.length s - String.length suf) s) at 1.
    by rewrite Hdrop.
  - intros [p ->]. rewrite length_app; split; [lia |].
    replace (String.length p + String.length suf - String.length suf)
      with (String.length p) by lia.
    apply drop_app_length.
Qed.

Lemma ascii_lower_empty_inv (s : string) : ascii_lower s = "" → s = "".
Proof. by destruct s. Qed.

Lemma length_ascii_lower (s : string) :
  String.length (ascii_lower s) = String.length s.
Proof. induction s as [|a s IH]; simpl; [done | by rewrite IH]. Qed.

Lemma falsy_spec (s : string) : falsy s = true ↔ s = "".
Proof. by destruct s. Qed.

End PyStrFacts.

(** ** The case mapping on ASCII text

    Folding [A]..[Z] and nothing else has every property asked of
    [str.lower]; it is the case mapping the examples run with. *)

Module AsciiLower.
Import PyStr PyStrFacts.

Lemma lower_char_idem (a : ascii) : lower_char (lower_char a) = lower_char a.
Proof. by destruct a as [[] [] [] [] [] [] [] []]. Qed.

Lemma ascii_lower_idem (s : string) : ascii_lower (ascii_lower s) = ascii_lower s.
Proof.
  induction s as [|a s IH]; simpl; [done |]. by rewrite lower_char_idem, IH.
Qed.

Lemma ascii_lower_app (a b : string) :
  ascii_lower (a +:+ b) = ascii_lower a +:+ ascii_lower b.
Proof.
  induction a as [|c a IH]; [done |].
  rewrite app_cons. simpl. by rewrite IH.
Qed.

Lemma lower_char_dot (a : ascii) :
  Ascii.eqb (lower_char a) "." = Ascii.eqb a ".".
Proof. by destruct a as [[] [] [] [] [] [] [] []]. Qed.

Lemma lower_char_slash (a : ascii) :
  Ascii.eqb (lower_char a) "/" = Ascii.eqb a "/".
Proof. by destruct a as [[] [] [] [] [] [] [] []]. Qed.

Lemma mem_ascii_lower (c : ascii) (s : string) :
  (∀ a, Ascii.eqb (lower_char a) c = Ascii.eqb a c) →
  mem c (ascii_lower s) = mem c s.
Proof. intros Hc. induction s as [|a s IH]; simpl; [done | by rewrite Hc, IH]. Qed.

Lemma lower_char_ascii (a : ascii) :
  (N_of_ascii (lower_char a) <? 128)%N = (N_of_ascii a <? 128)%N.
Proof. by destruct a as [[] [] [] [] [] [] [] []]. Qed.

Lemma is_ascii_lower (s : string) : is_ascii (ascii_lower s) = is_ascii s.
Proof.
  induction s as [|a s IH]; simpl; [done |]. by rewrite lower_char_ascii, IH.
Qed.

Lemma ascii_lower_extension (r : string) :
  mem "." r = false → mem "/" r = false →
  ∃ r', ascii_lower (String "." r) = String "." r' ∧
        mem "." r' = false ∧ mem "/" r' = false.
Proof.
  intros Hdot Hsep. exists (ascii_lower r). split; [done |].
  by rewrite !mem_ascii_lower by (apply lower_char_dot || apply lower_char_slash).
Qed.

(** The ASCII case folding as a case mapping. *)
Definition ascii_lower_model : StrLower :=
  {| lower := ascii_lower;
     lower_ascii := λ s _, eq_refl;
     lower_ascii_suffix := λ p x _,
       ex_intro _ (ascii_lower p) (ascii_lower_app p x);
     lower_extension := ascii_lower_extension;
     lower_fold := ascii_lower_idem |}.

End AsciiLower.

(** ** Preview selector *)

Section Selector.
Import PyStrFacts.

Context {L : StrLower}.

Lemma matches_spec (exts : list string) (u : string) :
  matches exts u = true ↔ ends_with_one_of exts u.
Proof.
  unfold matches, ends_with_one_of; rewrite existsb_exists; split.
  - intros (e & He & Hend). apply endswith_spec in Hend as [p Hp].
    exists e, p. by rewrite list_elem_of_In.
  - intros (e & p & He & Hp). exists e. rewrite <- list_elem_of_In.
    split; [done |]. apply endswith_spec; eauto.
Qed.

Lemma matches_false (exts : list string) (u : string) :
  matches exts u = false ↔ ¬ ends_with_one_of exts u.
Proof. rewrite <- matches_spec. by destruct (matches exts u). Qed.

#[global] Instance ends_with_one_of_dec exts u : Decision (ends_with_one_of exts u).
Proof.
  destruct (matches exts u) eqn:E.
  - left. by apply matches_spec.
  - right. by apply matches_false.
Defined.

(** Every recognised extension is non-empty, so a matching reference is
    a non-empty string. *)
Lemma matches_nonempty (exts : list string) (u : string) :
  exts = video_exts ∨ exts = image_exts →
  matches exts u = true → PyStr.falsy u = false.
Proof.
  intros Hexts Hm. destruct u; [| done].
  unfold matches in Hm. rewrite (lower_ascii "" eq_refl) in Hm.
  by destruct Hexts as [-> | ->].
Qed.

Lemma scan_hit exts kind pre u post st :
  Forall (λ v, matches exts v = false) pre →
  matches exts u = true →
  scan exts kind (pre ++ u :: post) st = (u, kind).
Proof.
  induction 1 as [|v pre Hv _ IH]; simpl; intros Hu.
  - by rewrite Hu.
  - rewrite Hv. by apply IH.
Qed.

Lemma scan_miss exts kind urls st :
  Forall (λ v, matches exts v = false) urls →
  scan exts kind urls st = st.
Proof. induction 1 as [|v urls Hv _ IH]; simpl; [done | by rewrite Hv]. Qed.

(** A skipped reference can be dropped from the list without changing
    what a pass computes. *)
Lemma scan_skip exts kind pre u post st :
  matches exts u = false →
  scan exts kind (pre ++ u :: post) st = scan exts kind (pre ++ post) st.
Proof.
  intros Hu. induction pre as [|v pre IH]; simpl.
  - by rewrite Hu.
  - by rewrite IH.
Qed.

(** The first element of a list satisfying a decidable property. *)
Lemma first_such_exists exts urls :
  Exists (ends_with_one_of exts) urls →
  ∃ u, first_such (ends_with_one_of exts) urls u.
Proof.
  induction urls as [|v urls IH]; intros Hex; [by inversion Hex |].
  destruct (decide (ends_with_one_of exts v)) as [Hv | Hv].
  - exists v, [], urls. by repeat split.
  - destruct IH as (u & pre & post & -> & Hpre & Hu).
    { inversion Hex; by subst. }
    exists u, (v :: pre), post. repeat split; [| done]. by constructor.
Qed.

Lemma scan_first exts kind urls u st :
  first_such (ends_with_one_of exts) urls u →
  scan exts kind urls st = (u, kind).
Proof.
  intros (pre & post & -> & Hpre & Hu). apply scan_hit.
  - eapply Forall_impl; [exact Hpre |]. intros v Hv. by apply matches_false.
  - by apply matches_spec.
Qed.

Lemma first_such_nonempty exts urls u :
  exts = video_exts ∨ exts = image_exts →
  first_such (ends_with_one_of exts) urls u → PyStr.falsy u = false.
Proof.
  intros Hexts (_ & _ & _ & _ & Hu).
  eapply matches_nonempty; [done | by apply matches_spec].
Qed.

(** Identifiers are unique in the catalog, so the lookup returns the
    entry that carries the identifier. *)
Lemma find_template_elem (tpl : Template) :
  tpl ∈ TEMPLATES → find_template (id tpl) = Some tpl.
Proof.
  unfold TEMPLATES; intros H.
  repeat (apply elem_of_cons in H as [-> | H]; [reflexivity |]).
  by apply elem_of_nil in H.
Qed.

Lemma find_template_None (tid : string) :
  (∀ t, t ∈ TEMPLATES → id t ≠ tid) → find_template tid = None.
Proof.
  intros H. unfold find_template.
  destruct (find _ TEMPLATES) as [t|] eqn:E; [| done].
  apply find_some in E as [Hin Heq]. apply String.eqb_eq in Heq.
  apply list_elem_of_In in Hin. by destruct (H t Hin).
Qed.

Lemma instant_edit_valid req tpl :
  tpl ∈ TEMPLATES → id tpl = template_id req → assets req ≠ [] →
  instant_edit req =
    Ok (mkResponse tpl (snd (select_preview (assets req)))
          (fst (select_preview (assets req))) (assets req) NOTES).
Proof.
  intros Hin Hid Hne. unfold instant_edit.
  rewrite <- Hid, (find_template_elem tpl Hin).
  by destruct (assets req).
Qed.

End Selector.

Section SelectorClaims.
Import PyStrFacts.

Context {L : StrLower}.

Lemma select_preview_video urls u :
  first_such (ends_with_one_of video_exts) urls u →
  select_preview urls = (u, "video").
Proof.
  intros Hu. unfold select_preview.
  assert (Hne : PyStr.falsy u = false)
    by (apply (first_such_nonempty video_exts urls u); auto).
  rewrite (scan_first _ _ _ u) by done. simpl. rewrite Hne. simpl.
  by rewrite Hne.
Qed.

Lemma no_match_Forall exts urls :
  Forall (λ u, ¬ ends_with_one_of exts u) urls →
  Forall (λ v, matches exts v = false) urls.
Proof.
  intros H. eapply Forall_impl; [exact H |].
  intros v Hv. by apply matches_false.
Qed.

Lemma select_preview_image urls u :
  Forall (λ v, ¬ ends_with_one_of video_exts v) urls →
  first_such (ends_with_one_of image_exts) urls u →
  select_preview urls = (u, "image").
Proof.
  intros Hvid Hu. unfold select_preview.
  assert (Hne : PyStr.falsy u = false)
    by (apply (first_such_nonempty image_exts urls u); auto).
  rewrite scan_miss by by apply no_match_Forall. simpl.
  rewrite (scan_first _ _ _ u) by done. simpl.
  by rewrite Hne.
Qed.

Lemma select_preview_placeholder urls :
  Forall (λ v, ¬ ends_with_one_of video_exts v) urls →
  Forall (λ v, ¬ ends_with_one_of image_exts v) urls →
  select_preview urls = (PLACEHOLDER_URL, "placeholder").
Proof.
  intros Hvid Himg. unfold select_preview.
  rewrite scan_miss by by apply no_match_Forall. simpl.
  by rewrite scan_miss by by apply no_match_Forall.
Qed.

(** The three ways [select_preview] can end. *)
Lemma select_preview_cases urls :
  (∃ u, first_such (ends_with_one_of video_exts) urls u ∧
        select_preview urls = (u, "video")) ∨
  (Forall (λ v, ¬ ends_with_one_of video_exts v) urls ∧
   ∃ u, first_such (ends_with_one_of image_exts) urls u ∧
        select_preview urls = (u, "image")) ∨
  (Forall (λ v, ¬ recognised v) urls ∧
   select_preview urls = (PLACEHOLDER_URL, "placeholder")).
Proof.
  destruct (decide (Exists (ends_with_one_of video_exts) urls)) as [Hv | Hv].
  { apply first_such_exists in Hv as [u Hu].
    left. exists u. split; [done | by apply select_preview_video]. }
  apply not_Exists_Forall in Hv; [| apply _].
  destruct (decide (Exists (ends_with_one_of image_exts) urls)) as [Hi | Hi].
  { apply first_such_exists in Hi as [u Hu].
    right; left. split; [done |]. exists u.
    split; [done | by apply select_preview_image]. }
  apply not_Exists_Forall in Hi; [| apply _].
  right; right. split; [| by apply select_preview_placeholder].
  rewrite Forall_forall in Hv, Hi. apply Forall_forall.
  intros v Hin [H | H]; [by apply (Hv v) | by apply (Hi v)].
Qed.

(** C1. For a valid template id and a non-empty asset list in which some
    reference, lower-cased, ends with one of [.mp4 .mov .mkv .webm],
    [instant_edit] answers with the first such reference in input order,
    classified ["video"].  Nothing is asked of the references before it,
    so an earlier image does not take precedence. *)
Theorem video_takes_precedence (req : InstantEditRequest) (tpl : Template) :
  tpl ∈ TEMPLATES → id tpl = template_id req → assets req ≠ [] →
  Exists (ends_with_one_of video_exts) (assets req) →
  ∃ u, first_such (ends_with_one_of video_exts) (assets req) u ∧
       instant_edit req = Ok (mkResponse tpl "video" u (assets req) NOTES).
Proof.
  intros Hin Hid Hne Hex.
  apply first_such_exists in Hex as [u Hu]. exists u. split; [done |].
  rewrite (instant_edit_valid req tpl) by done.
  by rewrite (select_preview_video _ u).
Qed.

(** C4. A template id that equals no catalog id (string equality, hence
    case-sensitive) makes [instant_edit] fail with status 404, whatever
    the asset list is, the empty list included. *)
Theorem unknown_template_not_found (req : InstantEditRequest) :
  (∀ t, t ∈ TEMPLATES → id t ≠ template_id req) →
  instant_edit req = HTTPException 404 "Template not found".
Proof.
  intros H. unfold instant_edit. by rewrite find_template_None.
Qed.

(** C5. For a valid template id and a non-empty asset list with no video
    reference but some reference that, lower-cased, ends with one of
    [.jpg .jpeg .png .gif], [instant_edit] answers with the first such
    reference in input order, classified ["image"]. *)
Theorem first_image_when_no_video (req : InstantEditRequest) (tpl : Template) :
  tpl ∈ TEMPLATES → id tpl = template_id req → assets req ≠ [] →
  Forall (λ v, ¬ ends_with_one_of video_exts v) (assets req) →
  Exists (ends_with_one_of image_exts) (assets req) →
  ∃ u, first_such (ends_with_one_of image_exts) (assets req) u ∧
       instant_edit req = Ok (mkResponse tpl "image" u (assets req) NOTES).
Proof.
  intros Hin Hid Hne Hvid Hex.
  apply first_such_exists in Hex as [u Hu]. exists u. split; [done |].
  rewrite (instant_edit_valid req tpl) by done.
  by rewrite (select_preview_image _ u).
Qed.

(** C6. For a valid template id and a non-empty asset list in which no
    reference has a recognised video or image extension, [instant_edit]
    classifies the result ["placeholder"] and returns the constant
    [PLACEHOLDER_URL]: the same reference for every such list, not one
    taken from it. *)
Theorem placeholder_when_nothing_matches (req : InstantEditRequest) (tpl : Template) :
  tpl ∈ TEMPLATES → id tpl = template_id req → assets req ≠ [] →
  Forall (λ v, ¬ recognised v) (assets req) →
  instant_edit req =
    Ok (mkResponse tpl "placeholder" PLACEHOLDER_URL (assets req) NOTES).
Proof.
  intros Hin Hid Hne Hnone.
  rewrite (instant_edit_valid req tpl) by done.
  rewrite select_preview_placeholder; [done | |];
    (eapply Forall_impl; [exact Hnone |]); unfold recognised; naive_solver.
Qed.

(** C7. A valid template id with an empty asset list makes [instant_edit]
    fail with status 400. *)
Theorem empty_assets_rejected (req : InstantEditRequest) (tpl : Template) :
  tpl ∈ TEMPLATES → id tpl = template_id req → assets req = [] →
  instant_edit req = HTTPException 400 "No assets provided".
Proof.
  intros Hin Hid Hnil. unfold instant_edit.
  by rewrite <- Hid, (find_template_elem tpl Hin), Hnil.
Qed.

(** C9. Classification looks only at the literal suffix of the
    lower-cased reference: a reference that does not end with a recognised
    extension is skipped by the video pass and by the image pass, and
    leaving it out of the list changes nothing in the selection. *)
Theorem unrecognised_reference_is_skipped (u : string) :
  ¬ recognised u →
  matches video_exts u = false ∧
  matches image_exts u = false ∧
  ∀ pre post, select_preview (pre ++ u :: post) = select_preview (pre ++ post).
Proof.
  intros Hu.
  assert (Hv : matches video_exts u = false)
    by (apply matches_false; intros H; apply Hu; by left).
  assert (Hi : matches image_exts u = false)
    by (apply matches_false; intros H; apply Hu; by right).
  repeat split; [done | done |]. intros pre post.
  unfold select_preview. by rewrite !(scan_skip _ _ pre u post) by done.
Qed.

(** C10. Whenever [instant_edit] succeeds, the classification is one of
    ["video"], ["image"], ["placeholder"] and never the initial
    ["unknown"]: a reference with a recognised extension is a non-empty
    string, so after either pass the variable [preview_url] is empty
    exactly when that pass matched nothing. *)
Theorem preview_type_is_classified (req : InstantEditRequest)
    (resp : InstantEditResponse) :
  instant_edit req = Ok resp →
  preview_type resp ∈ ["video"; "image"; "placeholder"] ∧
  preview_type resp ≠ "unknown" ∧
  (∀ u, recognised u → u ≠ "") ∧
  (∀ exts kind, exts = video_exts ∨ exts = image_exts →
     (PyStr.falsy (fst (scan exts kind (assets req) ("", "unknown"))) = true
      ↔ Forall (λ v, ¬ ends_with_one_of exts v) (assets req))).
Proof.
  intros Hok.
  assert (Htype : preview_type resp = snd (select_preview (assets req))).
  { unfold instant_edit in Hok.
    destruct (find_template _); [| done].
    destruct (assets req); [done |]. by injection Hok as <-. }
  assert (Hcls : preview_type resp ∈ ["video"; "image"; "placeholder"]).
  { rewrite Htype.
    destruct (select_preview_cases (assets req))
      as [(u & _ & ->) | [(_ & u & _ & ->) | (_ & ->)]]; simpl;
      set_solver. }
  split; [done |]. split.
  { intros Heq. rewrite Heq in Hcls.
    repeat (apply elem_of_cons in Hcls as [Hcls | Hcls]; [discriminate |]).
    by apply elem_of_nil in Hcls. }
  split.
  { intros u [H | H] ->; apply matches_spec in H;
      by apply matches_nonempty in H; auto. }
  intros exts kind Hexts. split.
  - intros Hf.
    destruct (decide (Exists (ends_with_one_of exts) (assets req))) as [Hex | Hex].
    + apply first_such_exists in Hex as [u Hu].
      rewrite (scan_first _ _ _ u) in Hf by done. simpl in Hf.
      by rewrite (first_such_nonempty exts (assets req) u) in Hf.
    + apply not_Exists_Forall in Hex; [done | apply _].
  - intros Hall. by rewrite scan_miss by by apply no_match_Forall.
Qed.

End SelectorClaims.

(** ** Preview selector: outcome, provenance, invariance *)

Section SelectorFurther.
Import PyStrFacts.

Context {L : StrLower}.

Lemma ends_with_lower (exts : list string) (u : string) :
  ends_with_one_of exts (PyStr.ascii_lower u) ↔ ends_with_one_of exts u.
Proof. unfold ends_with_one_of. by rewrite lower_fold. Qed.

Lemma find_template_Some_inv (tid : string) (t : Template) :
  find_template tid = Some t → t ∈ TEMPLATES ∧ id t = tid.
Proof.
  unfold find_template. intros H. apply find_some in H as [Hin Heq].
  split; [by apply list_elem_of_In | by apply String.eqb_eq].
Qed.

(** What a successful answer is made of. *)
Lemma instant_edit_Ok_inv (req : InstantEditRequest) (resp : InstantEditResponse) :
  instant_edit req = Ok resp →
  ∃ tpl, tpl ∈ TEMPLATES ∧ id tpl = template_id req ∧ assets req ≠ [] ∧
    resp = mkResponse tpl (select_preview (assets req)).2
             (select_preview (assets req)).1 (assets req) NOTES.
Proof.
  unfold instant_edit. intros H.
  destruct (find_template (template_id req)) as [tpl|] eqn:E; [| done].
  apply find_template_Some_inv in E as [Hin Hid].
  destruct (assets req) as [|u urls] eqn:Ea; [done |].
  injection H as <-. exists tpl. by repeat split.
Qed.

Lemma first_such_Exists exts urls u :
  first_such (ends_with_one_of exts) urls u → Exists (ends_with_one_of exts) urls.
Proof.
  intros (pre & post & -> & _ & Hu).
  apply Exists_app. right. by apply Exists_cons_hd.
Qed.

Lemma first_such_elem exts urls u :
  first_such (ends_with_one_of exts) urls u → u ∈ urls.
Proof.
  intros (pre & post & -> & _ & _). apply elem_of_app. right. by left.
Qed.

Lemma Forall_not_Exists_ends exts urls :
  Forall (λ v, ¬ ends_with_one_of exts v) urls →
  ¬ Exists (ends_with_one_of exts) urls.
Proof.
  intros Hall Hex. apply Exists_exists in Hex as (v & Hin & Hv).
  rewrite Forall_forall in Hall. by apply (Hall v Hin).
Qed.

Lemma Forall_unrecognised urls :
  Forall (λ v, ¬ recognised v) urls ↔
  Forall (λ v, ¬ ends_with_one_of video_exts v) urls ∧
  Forall (λ v, ¬ ends_with_one_of image_exts v) urls.
Proof.
  rewrite !Forall_forall. unfold recognised. split.
  - intros H. split; intros v Hin Hv; apply (H v Hin); [by left | by right].
  - intros [Hv Hi] v Hin [H | H]; [by apply (Hv v) | by apply (Hi v)].
Qed.

(** X1. The catalog lookup is sound and complete: it returns an entry
    exactly when that entry is in the catalog under the requested id (ids
    are unique, so the first hit is the only one). *)
Theorem find_template_iff (tid : string) (t : Template) :
  find_template tid = Some t ↔ t ∈ TEMPLATES ∧ id t = tid.
Proof.
  split; [apply find_template_Some_inv |].
  intros [Hin <-]. by apply find_template_elem.
Qed.

(** X2. [instant_edit] succeeds exactly when the template id is in the
    catalog and the asset list is non-empty; its only failures are 404 (id
    not in the catalog) and 400 (id in the catalog, no assets); no other
    exception leaves it. *)
Theorem instant_edit_outcome (req : InstantEditRequest) :
  let known := ∃ t, t ∈ TEMPLATES ∧ id t = template_id req in
  ((∃ resp, instant_edit req = Ok resp) ↔ known ∧ assets req ≠ []) ∧
  (∀ code detail, instant_edit req = HTTPException code detail →
     (code = 404%Z ∧ ¬ known) ∨ (code = 400%Z ∧ known ∧ assets req = [])) ∧
  (∀ e, instant_edit req ≠ Raised e).
Proof.
  intros known. split; [split |]; [| | split].
  - intros [resp H]. apply instant_edit_Ok_inv in H as (tpl & ? & ? & ? & _).
    split; [by exists tpl | done].
  - intros [(tpl & Hin & Hid) Hne]. eexists. by apply instant_edit_valid.
  - intros code detail H. unfold instant_edit in H.
    destruct (find_template (template_id req)) as [tpl|] eqn:E.
    + apply find_template_Some_inv in E as [Hin Hid].
      destruct (assets req); [| done]. injection H as <- _.
      right. split; [done |]. split; [by exists tpl | done].
    + injection H as <- _. left. split; [done |].
      intros (t & Hin & Hid). apply find_template_elem in Hin.
      rewrite Hid in Hin. congruence.
  - intros e. unfold instant_edit.
    destruct (find_template (template_id req)); [| done].
    by destruct (assets req).
Qed.

(** X3. A successful answer carries the catalog entry of the requested id,
    the asset list exactly as it was sent, and the fixed note. *)
Theorem instant_edit_echo (req : InstantEditRequest) (resp : InstantEditResponse) :
  instant_edit req = Ok resp →
  template resp ∈ TEMPLATES ∧ id (template resp) = template_id req ∧
  used_assets resp = assets req ∧ notes resp = NOTES.
Proof.
  intros H. apply instant_edit_Ok_inv in H as (tpl & Hin & Hid & _ & ->).
  by repeat split.
Qed.

(** X4. The preview reference of a successful answer is either one of the
    submitted assets, returned as it was sent and carrying a recognised
    extension, or the placeholder constant, and then no asset carries a
    recognised extension. *)
Theorem preview_url_provenance (req : InstantEditRequest) (resp : InstantEditResponse) :
  instant_edit req = Ok resp →
  (preview_url resp ∈ assets req ∧ recognised (preview_url resp) ∧
   preview_type resp ≠ "placeholder") ∨
  (preview_url resp = PLACEHOLDER_URL ∧ preview_type resp = "placeholder" ∧
   Forall (λ v, ¬ recognised v) (assets req)).
Proof.
  intros H. apply instant_edit_Ok_inv in H as (tpl & _ & _ & _ & ->). simpl.
  destruct (select_preview_cases (assets req))
    as [(u & Hu & ->) | [(_ & u & Hu & ->) | (Hnone & ->)]]; simpl.
  - left. split; [by eapply first_such_elem |]. split; [| done].
    left. by destruct Hu as (? & ? & _ & _ & ?).
  - left. split; [by eapply first_such_elem |]. split; [| done].
    right. by destruct Hu as (? & ? & _ & _ & ?).
  - by right.
Qed.

(** X5. The classification says exactly what the asset list holds: "video"
    iff some asset has a video extension; "image" iff none has a video
    extension and some has an image extension; "placeholder" iff none has a
    recognised extension. *)
Theorem preview_type_iff (req : InstantEditRequest) (resp : InstantEditResponse) :
  instant_edit req = Ok resp →
  (preview_type resp = "video" ↔ Exists (ends_with_one_of video_exts) (assets req)) ∧
  (preview_type resp = "image" ↔
     ¬ Exists (ends_with_one_of video_exts) (assets req) ∧
     Exists (ends_with_one_of image_exts) (assets req)) ∧
  (preview_type resp = "placeholder" ↔ ¬ Exists recognised (assets req)).
Proof.
  intros H. apply instant_edit_Ok_inv in H as (tpl & _ & _ & _ & ->). simpl.
  destruct (select_preview_cases (assets req))
    as [(u & Hu & ->) | [(Hv & u & Hu & ->) | (Hnone & ->)]]; simpl.
  - pose proof (first_such_Exists _ _ _ Hu) as Hex.
    split; [done |]. split; [split; [done | by intros [Hno _]] |].
    split; [done |]. intros Hno. destruct Hno.
    eapply Exists_impl; [exact Hex | by left].
  - pose proof (first_such_Exists _ _ _ Hu) as Hex.
    apply Forall_not_Exists_ends in Hv.
    split; [split; [done | by intros ?] |]. split; [done |].
    split; [done |]. intros Hno. destruct Hno.
    eapply Exists_impl; [exact Hex | by right].
  - pose proof Hnone as Hn. apply Forall_unrecognised in Hn as [Hv Hi].
    apply Forall_not_Exists_ends in Hv, Hi.
    split; [split; [done | by intros ?] |].
    split; [split; [done | by intros [_ ?]] |].
    split; [| done]. intros _ Hex.
    apply Exists_exists in Hex as (v & Hin & Hr).
    rewrite Forall_forall in Hnone. by apply (Hnone v Hin).
Qed.

(** The classification as a function of what the list holds. *)
Lemma select_preview_type (urls : list string) :
  (select_preview urls).2 =
    if decide (Exists (ends_with_one_of video_exts) urls) then "video"
    else if decide (Exists (ends_with_one_of image_exts) urls) then "image"
    else "placeholder".
Proof.
  destruct (select_preview_cases urls)
    as [(u & Hu & ->) | [(Hv & u & Hu & ->) | (Hnone & ->)]]; simpl.
  - apply first_such_Exists in Hu. by rewrite decide_True.
  - apply first_such_Exists in Hu. apply Forall_not_Exists_ends in Hv.
    by rewrite decide_False, decide_True.
  - apply Forall_unrecognised in Hnone as [Hv Hi].
    apply Forall_not_Exists_ends in Hv, Hi.
    by rewrite !decide_False.
Qed.

Lemma Exists_Permutation (P : string → Prop) (l l' : list string) :
  l ≡ₚ l' → Exists P l ↔ Exists P l'.
Proof.
  intros Hp. rewrite !Exists_exists.
  split; intros (x & Hin & Hx); exists x; split; try done.
  - by rewrite <- Hp.
  - by rewrite Hp.
Qed.

(** X6. The classification does not depend on the order of the assets:
    a request with the same template id and a permutation of the asset list
    succeeds with the same template and the same preview type. *)
Theorem preview_type_permutation (req req' : InstantEditRequest)
    (resp : InstantEditResponse) :
  template_id req' = template_id req → assets req' ≡ₚ assets req →
  instant_edit req = Ok resp →
  ∃ resp', instant_edit req' = Ok resp' ∧
           preview_type resp' = preview_type resp ∧
           template resp' = template resp.
Proof.
  intros Hid Hperm H.
  apply instant_edit_Ok_inv in H as (tpl & Hin & Htid & Hne & ->).
  assert (Hne' : assets req' ≠ []).
  { intros E. rewrite E in Hperm. by apply Permutation_nil_l in Hperm. }
  eexists. split; [apply (instant_edit_valid req' tpl); congruence |].
  split; [| done]. simpl. rewrite !select_preview_type.
  pose proof (Exists_Permutation (ends_with_one_of video_exts) _ _ Hperm) as Hv.
  pose proof (Exists_Permutation (ends_with_one_of image_exts) _ _ Hperm) as Hi.
  repeat case_decide; tauto.
Qed.

Lemma first_such_lower exts urls u :
  first_such (ends_with_one_of exts) urls u →
  first_such (ends_with_one_of exts) (PyStr.ascii_lower <$> urls) (PyStr.ascii_lower u).
Proof.
  intros (pre & post & -> & Hpre & Hu).
  exists (PyStr.ascii_lower <$> pre), (PyStr.ascii_lower <$> post).
  split; [by rewrite fmap_app |]. split; [| by apply ends_with_lower].
  apply Forall_fmap. eapply Forall_impl; [exact Hpre |].
  intros v Hv. simpl. by rewrite ends_with_lower.
Qed.

Lemma Forall_not_lower exts urls :
  Forall (λ v, ¬ ends_with_one_of exts v) urls →
  Forall (λ v, ¬ ends_with_one_of exts v) (PyStr.ascii_lower <$> urls).
Proof.
  intros H. apply Forall_fmap. eapply Forall_impl; [exact H |].
  intros v Hv. simpl. by rewrite ends_with_lower.
Qed.

(** X7. Matching ignores case: sending the assets already lower-cased
    gives the same preview type, and, unless it is the placeholder, the
    lower-cased form of the same reference. *)
Theorem lowercased_assets_same_preview (req req' : InstantEditRequest)
    (resp : InstantEditResponse) :
  template_id req' = template_id req →
  assets req' = PyStr.ascii_lower <$> assets req →
  instant_edit req = Ok resp →
  ∃ resp', instant_edit req' = Ok resp' ∧
           preview_type resp' = preview_type resp ∧
           (preview_type resp ≠ "placeholder" →
            preview_url resp' = PyStr.ascii_lower (preview_url resp)).
Proof.
  intros Hid Hassets H.
  apply instant_edit_Ok_inv in H as (tpl & Hin & Htid & Hne & ->).
  assert (Hne' : assets req' ≠ []).
  { rewrite Hassets. by destruct (assets req). }
  eexists. split; [apply (instant_edit_valid req' tpl); congruence |].
  simpl. rewrite Hassets.
  destruct (select_preview_cases (assets req))
    as [(u & Hu & ->) | [(Hv & u & Hu & ->) | (Hnone & ->)]]; simpl.
  - by rewrite (select_preview_video _ (PyStr.ascii_lower u))
      by by apply first_such_lower.
  - by rewrite (select_preview_image _ (PyStr.ascii_lower u))
      by (by apply Forall_not_lower || by apply first_such_lower).
  - apply Forall_unrecognised in Hnone as [Hv Hi].
    by rewrite select_preview_placeholder by by apply Forall_not_lower.
Qed.

End SelectorFurther.

(** ** Paths and tokens *)

Module PathFacts.
Import PyStr PyStrFacts.

Lemma app_nil_r (t : string) : t +:+ "" = t.
Proof. induction t as [|a t IH]; [done | by rewrite app_cons, IH]. Qed.

Lemma mem_app (c : ascii) (t u : string) :
  mem c (t +:+ u) = mem c t || mem c u.
Proof.
  induction t as [|a t IH]; [done |].
  rewrite app_cons; simpl. by rewrite IH, orb_assoc.
Qed.

Lemma rfind_ge (c : ascii) (s : string) : (-1 ≤ rfind c s)%Z.
Proof.
  induction s as [|a s IH]; simpl; [lia |].
  destruct (0 <=? rfind c s)%Z eqn:E; [lia |]. destruct (Ascii.eqb a c); lia.
Qed.

Lemma rfind_absent (c : ascii) (s : string) :
  rfind c s = (-1)%Z ↔ mem c s = false.
Proof.
  induction s as [|a s IH]; simpl; [done |].
  pose proof (rfind_ge c s) as Hge.
  destruct (0 <=? rfind c s)%Z eqn:E.
  - apply Z.leb_le in E. destruct (mem c s).
    + rewrite orb_true_r. split; [lia | done].
    + destruct IH as [_ IH]. specialize (IH eq_refl). lia.
  - apply Z.leb_gt in E. assert (Hs : rfind c s = (-1)%Z) by lia.
    apply IH in Hs. rewrite Hs, orb_false_r.
    destruct (Ascii.eqb a c); split; done.
Qed.

(** At the index [rfind] returns sits the last occurrence of [c]. *)
Lemma rfind_drop (c : ascii) (s : string) :
  (0 ≤ rfind c s)%Z →
  ∃ r, drop (Z.to_nat (rfind c s)) s = String c r ∧ mem c r = false.
Proof.
  induction s as [|a s IH]; simpl; [lia |].
  pose proof (rfind_ge c s) as Hge.
  destruct (0 <=? rfind c s)%Z eqn:E.
  - apply Z.leb_le in E. intros _. destruct (IH E) as (r & Hr & Hm).
    exists r. split; [| done].
    replace (Z.to_nat (rfind c s + 1)) with (S (Z.to_nat (rfind c s))) by lia.
    done.
  - apply Z.leb_gt in E. destruct (Ascii.eqb_spec a c) as [-> | Hne]; [| lia].
    intros _. exists s. split; [done |]. apply rfind_absent. lia.
Qed.

(** Past the last occurrence of [d] there is no [d]. *)
Lemma rfind_drop_absent (d : ascii) (s : string) (i : nat) :
  (rfind d s < Z.of_nat i)%Z → mem d (drop i s) = false.
Proof.
  revert i; induction s as [|a s IH]; intros i; [by destruct i |].
  destruct i as [|i].
  - intros H. change (drop 0 (String a s)) with (String a s).
    apply rfind_absent. pose proof (rfind_ge d (String a s)). lia.
  - simpl. pose proof (rfind_ge d s) as Hge. intros H. apply IH.
    destruct (0 <=? rfind d s)%Z eqn:E; [lia |].
    apply Z.leb_gt in E. lia.
Qed.

Lemma rfind_app_last (c : ascii) (t r : string) :
  mem c t = false → mem c r = false →
  rfind c (t +:+ String c r) = Z.of_nat (String.length t).
Proof.
  intros Ht Hr. induction t as [|a t IH].
  - rewrite app_nil_l; simpl. apply rfind_absent in Hr. rewrite Hr; simpl.
    by rewrite Ascii.eqb_refl.
  - simpl in Ht. apply orb_false_iff in Ht as [_ Ht].
    rewrite app_cons; simpl. rewrite (IH Ht).
    destruct (0 <=? Z.of_nat (String.length t))%Z eqn:E; [lia |].
    apply Z.leb_gt in E. lia.
Qed.

Lemma skip_leading_dots_cases p dotIndex n i :
  skip_leading_dots p dotIndex n i = (p, "") ∨
  skip_leading_dots p dotIndex n i =
    (take (Z.to_nat dotIndex) p, drop (Z.to_nat dotIndex) p).
Proof.
  revert i; induction n as [|n IH]; intros i; simpl; [by left |].
  destruct (negb _); [by right | apply IH].
Qed.

Lemma extension_shaped (p : string) : ext_shaped (extension p).
Proof.
  unfold extension, splitext.
  destruct (rfind "/" p <? rfind "." p)%Z eqn:E; [| by left].
  apply Z.ltb_lt in E. pose proof (rfind_ge "/" p) as Hsep.
  destruct (skip_leading_dots_cases p (rfind "." p)
              (Z.to_nat (rfind "." p - (rfind "/" p + 1))) (rfind "/" p + 1))
    as [-> | ->]; simpl; [by left |].
  destruct (rfind_drop "." p) as (r & Hr & Hdot); [lia |].
  right. exists r. split; [done |]. split; [done |].
  assert (Hs : mem "/" (drop (Z.to_nat (rfind "." p)) p) = false)
    by (apply rfind_drop_absent; lia).
  by rewrite Hr in Hs.
Qed.

(** A name made of a token without dots or separators followed by an
    extension splits back into the two. *)
Lemma splitext_token (t e : string) :
  t ≠ "" → mem "." t = false → mem "/" t = false → ext_shaped e →
  splitext (t +:+ e) = (t, e).
Proof.
  intros Hne Hdot Hsep [-> | (r & -> & Hrdot & Hrsep)]; unfold splitext.
  - rewrite app_nil_r.
    apply rfind_absent in Hdot, Hsep. by rewrite Hdot, Hsep.
  - assert (Hs : rfind "/" (t +:+ String "." r) = (-1)%Z).
    { apply rfind_absent. rewrite mem_app, Hsep. simpl. exact Hrsep. }
    rewrite Hs, rfind_app_last by done.
    destruct t as [|a t]; [done |]. simpl in Hdot.
    apply orb_false_iff in Hdot as [Ha Hdot].
    replace (-1 <? Z.of_nat (String.length (String a t)))%Z with true
      by (symmetry; apply Z.ltb_lt; lia).
    replace (Z.to_nat (Z.of_nat (String.length (String a t)) - (-1 + 1)))
      with (S (String.length t)) by (simpl String.length; lia).
    rewrite app_cons. simpl skip_leading_dots. rewrite Ha. simpl negb.
    rewrite Nat2Z.id, <- app_cons.
    change (S (String.length t)) with (String.length (String a t)).
    by rewrite take_app_length, drop_app_length.
Qed.

Lemma get_mem (i : nat) (s : string) (a : ascii) :
  String.get i s = Some a → mem a s = true.
Proof.
  revert i; induction s as [|b s IH]; intros [|i]; simpl; try done.
  - intros [= ->]. by rewrite Ascii.eqb_refl.
  - intros H. by rewrite (IH i H), orb_true_r.
Qed.

Lemma hex_digit_mem (d : N) : mem (hex_digit d) hexdigits = true.
Proof.
  unfold hex_digit. destruct (String.get _ hexdigits) eqn:E; [| done].
  by apply get_mem in E.
Qed.

Lemma length_hex_fixed (k : nat) (n : N) (acc : string) :
  String.length (hex_fixed k n acc) = k + String.length acc.
Proof.
  revert n acc; induction k as [|k IH]; intros n acc; simpl; [done |].
  rewrite IH. simpl. lia.
Qed.

Lemma mem_hex_fixed (c : ascii) (k : nat) (n : N) (acc : string) :
  mem c hexdigits = false → mem c (hex_fixed k n acc) = mem c acc.
Proof.
  intros Hc. revert n acc; induction k as [|k IH]; intros n acc; simpl; [done |].
  rewrite IH. simpl.
  destruct (Ascii.eqb_spec (hex_digit (n mod 16)) c) as [<- | _]; [| done].
  by rewrite hex_digit_mem in Hc.
Qed.

Lemma length_uuid_hex (n : N) : String.length (uuid_hex n) = 32.
Proof. unfold uuid_hex. by rewrite length_hex_fixed. Qed.

Lemma uuid_hex_nonempty (n : N) : uuid_hex n ≠ "".
Proof. intros H. pose proof (length_uuid_hex n) as Hl. by rewrite H in Hl. Qed.

Lemma hex_digit_inj (d d' : N) :
  (d < 16)%N → (d' < 16)%N → hex_digit d = hex_digit d' → d = d'.
Proof.
  intros Hd Hd'.
  assert (Hcases : ∀ x, (x < 16)%N → x ∈ (N.of_nat <$> seq 0 16)).
  { intros x Hx. apply list_elem_of_fmap. exists (N.to_nat x).
    split; [lia |]. apply list_elem_of_In, in_seq. lia. }
  apply Hcases in Hd, Hd'. simpl in Hd, Hd'.
  repeat (apply elem_of_cons in Hd as [-> | Hd]);
    try (by apply elem_of_nil in Hd);
    repeat (apply elem_of_cons in Hd' as [-> | Hd']);
    try (by apply elem_of_nil in Hd'); by (reflexivity || discriminate).
Qed.

(** Rendering [k] digits loses nothing of a number below [16 ^ k]. *)
Lemma hex_fixed_inj (k : nat) (n m : N) (acc acc' : string) :
  (n < 16 ^ N.of_nat k)%N → (m < 16 ^ N.of_nat k)%N →
  hex_fixed k n acc = hex_fixed k m acc' → String.length acc = String.length acc' →
  n = m ∧ acc = acc'.
Proof.
  revert n m acc acc'; induction k as [|k IH]; intros n m acc acc' Hn Hm Heq Hlen.
  - simpl in *. split; [lia | done].
  - simpl in Heq.
    replace (16 ^ N.of_nat (S k))%N with (16 * 16 ^ N.of_nat k)%N in Hn, Hm
      by (rewrite Nat2N.inj_succ, N.pow_succ_r'; lia).
    apply IH in Heq as [Hdiv Hacc].
    + injection Hacc as Hdig ->. split; [| done].
      apply hex_digit_inj in Hdig; [| by apply N.mod_lt | by apply N.mod_lt].
      rewrite (N.div_mod n 16), (N.div_mod m 16) by done. by rewrite Hdiv, Hdig.
    + apply N.Div0.div_lt_upper_bound; lia.
    + apply N.Div0.div_lt_upper_bound; lia.
    + simpl. by rewrite Hlen.
Qed.

(** Distinct 128-bit UUIDs have distinct [hex] renderings. *)
Lemma uuid_hex_inj (n m : N) :
  (n < 2 ^ 128)%N → (m < 2 ^ 128)%N → uuid_hex n = uuid_hex m → n = m.
Proof.
  intros Hn Hm Heq.
  assert (Hpow : (16 ^ N.of_nat 32 = 2 ^ 128)%N) by (vm_compute; reflexivity).
  destruct (hex_fixed_inj 32 n m "" "") as [Hnm _].
  - rewrite Hpow; exact Hn.
  - rewrite Hpow; exact Hm.
  - exact Heq.
  - reflexivity.
  - exact Hnm.
Qed.

End PathFacts.

(** ** What [os.path.splitext] computes *)

Module SplitextSpec.
Import PyStr PyStrFacts PathFacts.

Lemma rfind_lt_length (c : ascii) (s : string) :
  (rfind c s < Z.of_nat (String.length s))%Z.
Proof.
  induction s as [|a s IH]; simpl; [lia |].
  destruct (0 <=? rfind c s)%Z; [lia |]. destruct (Ascii.eqb a c); lia.
Qed.

Lemma rfind_app (c : ascii) (a b : string) :
  rfind c (a +:+ b) =
    if (0 <=? rfind c b)%Z then (Z.of_nat (String.length a) + rfind c b)%Z
    else rfind c a.
Proof.
  induction a as [|x a IH].
  { rewrite app_nil_l. pose proof (rfind_ge c b) as Hb.
    destruct (0 <=? rfind c b)%Z eqn:E; simpl; [lia |].
    apply Z.leb_gt in E. lia. }
  rewrite app_cons. simpl rfind at 1. rewrite IH.
  pose proof (rfind_ge c a) as Hge.
  destruct (0 <=? rfind c b)%Z eqn:Eb.
  - apply Z.leb_le in Eb.
    replace (0 <=? Z.of_nat (String.length a) + rfind c b)%Z with true
      by (symmetry; apply Z.leb_le; lia).
    simpl String.length. lia.
  - simpl rfind at 2. done.
Qed.

Lemma drop_app_plus (a b : string) (j : nat) :
  drop (String.length a + j) (a +:+ b) = drop j b.
Proof. induction a as [|x a IH]; [done | by rewrite app_cons]. Qed.

Lemma last_component_drop (p : string) :
  last_component p = drop (Z.to_nat (rfind "/" p + 1)) p.
Proof.
  induction p as [|a s IH]; [done |]. simpl last_component. simpl rfind.
  pose proof (rfind_ge "/" s) as Hge.
  destruct (mem "/" s) eqn:Em.
  - assert (Hs : (0 <= rfind "/" s)%Z).
    { destruct (Z.eq_dec (rfind "/" s) (-1)%Z) as [E | E]; [| lia].
      apply rfind_absent in E. congruence. }
    replace (0 <=? rfind "/" s)%Z with true by (symmetry; apply Z.leb_le; lia).
    replace (Z.to_nat (rfind "/" s + 1 + 1))
      with (S (Z.to_nat (rfind "/" s + 1))) by lia.
    simpl. exact IH.
  - apply rfind_absent in Em. rewrite Em. simpl.
    destruct (Ascii.eqb a "/"); done.
Qed.

Lemma mem_sep_last_component (p : string) : mem "/" (last_component p) = false.
Proof.
  induction p as [|a s IH]; [done |]. simpl.
  destruct (mem "/" s) eqn:Em; [done |].
  destruct (Ascii.eqb a "/") eqn:Ea; [done |]. simpl. by rewrite Ea, Em.
Qed.

Lemma mem_strip_dots (c : ascii) (s : string) :
  mem c s = false → mem c (strip_dots s) = false.
Proof.
  induction s as [|a s IH]; [done |]. simpl.
  destruct (Ascii.eqb a "."); [| done].
  intros H. apply orb_false_iff in H as [_ H]. by apply IH.
Qed.

(** The loop that skips leading dots, on the text it runs over. *)
Lemma skip_leading_dots_spec (d : Z) (n : nat) (pre rest : string) :
  (n ≤ String.length rest)%nat →
  skip_leading_dots (pre +:+ rest) d n (Z.of_nat (String.length pre)) =
    if all_dots (take n rest) then (pre +:+ rest, "")
    else (take (Z.to_nat d) (pre +:+ rest), drop (Z.to_nat d) (pre +:+ rest)).
Proof.
  revert pre rest; induction n as [|n IH]; intros pre rest Hn; [done |].
  simpl skip_leading_dots. rewrite Nat2Z.id.
  rewrite <- (Nat.add_0_r (String.length pre)), drop_app_plus.
  destruct rest as [|a rest]; [simpl in Hn; lia |].
  simpl in Hn.
  simpl. destruct (Ascii.eqb a ".") eqn:Ea; simpl; [| done].
  apply Ascii.eqb_eq in Ea as ->.
  replace (pre +:+ String "." rest) with ((pre +:+ ".") +:+ rest)
    by (by rewrite app_assoc).
  replace (Z.of_nat (String.length pre + 0) + 1)%Z
    with (Z.of_nat (String.length (pre +:+ ".")))
    by (rewrite length_app; simpl; lia).
  apply IH. lia.
Qed.

(** When only dots precede the last dot of [c], nothing but those dots is
    stripped and no dot is left. *)
Lemma strip_dots_all (c : string) :
  (0 ≤ rfind "." c)%Z →
  all_dots (take (Z.to_nat (rfind "." c)) c) = true →
  mem "." (strip_dots c) = false.
Proof.
  induction c as [|a c IH]; [done |]. simpl rfind.
  pose proof (rfind_ge "." c) as Hge.
  destruct (0 <=? rfind "." c)%Z eqn:E.
  - apply Z.leb_le in E. intros _.
    replace (Z.to_nat (rfind "." c + 1)) with (S (Z.to_nat (rfind "." c))) by lia.
    simpl. destruct (Ascii.eqb a "."); [| done]. simpl. by apply IH.
  - apply Z.leb_gt in E. assert (Hc : rfind "." c = (-1)%Z) by lia.
    apply rfind_absent in Hc.
    destruct (Ascii.eqb a ".") eqn:Ea; [| lia]. intros _ _. simpl. rewrite Ea.
    by apply mem_strip_dots.
Qed.

(** When something else than a dot precedes the last dot of [c], the
    stripped name still holds that dot and what follows it. *)
Lemma strip_dots_ext (c : string) :
  (0 ≤ rfind "." c)%Z →
  all_dots (take (Z.to_nat (rfind "." c)) c) = false →
  ∃ stem r, strip_dots c = stem +:+ String "." r ∧ mem "." r = false ∧
            drop (Z.to_nat (rfind "." c)) c = String "." r.
Proof.
  induction c as [|a c IH]; [done |]. simpl rfind.
  pose proof (rfind_ge "." c) as Hge.
  destruct (0 <=? rfind "." c)%Z eqn:E.
  - apply Z.leb_le in E. intros _.
    replace (Z.to_nat (rfind "." c + 1)) with (S (Z.to_nat (rfind "." c))) by lia.
    simpl. destruct (Ascii.eqb a ".") eqn:Ea; simpl.
    + by apply IH.
    + intros _. destruct (rfind_drop "." c E) as (r & Hr & Hm).
      exists (String a (take (Z.to_nat (rfind "." c)) c)), r.
      split; [| done]. rewrite app_cons, <- Hr. by rewrite take_drop.
  - destruct (Ascii.eqb a "."); [| lia]. by intros _.
Qed.

(** [os.path.splitext] cuts the path in two, and the second part is the
    extension in the sense of [extension_of]. *)
Lemma splitext_spec (p : string) :
  (splitext p).1 +:+ (splitext p).2 = p ∧ extension_of p (extension p).
Proof.
  split.
  { unfold splitext. destruct (_ <? _)%Z; [| by rewrite app_nil_r].
    destruct (skip_leading_dots_cases p (rfind "." p)
                (Z.to_nat (rfind "." p - (rfind "/" p + 1))) (rfind "/" p + 1))
      as [-> | ->]; simpl; [by rewrite app_nil_r | apply take_drop]. }
  unfold extension, extension_of.
  pose proof (rfind_ge "/" p) as Hsep.
  pose proof (rfind_lt_length "/" p) as Hlen.
  set (n := Z.to_nat (rfind "/" p + 1)).
  set (c := last_component p).
  assert (Hc : c = drop n p) by apply last_component_drop.
  assert (Hp : p = take n p +:+ c) by (by rewrite Hc, take_drop).
  assert (Hn : String.length (take n p) = n) by (apply length_take; lia).
  assert (Hdot : rfind "." p =
                 if (0 <=? rfind "." c)%Z then (Z.of_nat n + rfind "." c)%Z
                 else rfind "." (take n p)).
  { rewrite Hp at 1. by rewrite rfind_app, Hn. }
  pose proof (rfind_ge "." c) as Hgec.
  pose proof (rfind_lt_length "." c) as Hltc.
  pose proof (rfind_lt_length "." (take n p)) as Hlt.
  assert (Hs : splitext p =
               if (0 <=? rfind "." c)%Z
               then if all_dots (take (Z.to_nat (rfind "." c)) c) then (p, "")
                    else (take (Z.to_nat (rfind "." p)) p,
                          drop (Z.to_nat (rfind "." p)) p)
               else (p, "")).
  { unfold splitext. destruct (0 <=? rfind "." c)%Z eqn:E.
    - apply Z.leb_le in E.
      replace (rfind "/" p <? rfind "." p)%Z with true
        by (symmetry; apply Z.ltb_lt; lia).
      replace (Z.to_nat (rfind "." p - (rfind "/" p + 1)))
        with (Z.to_nat (rfind "." c)) by lia.
      replace (rfind "/" p + 1)%Z with (Z.of_nat (String.length (take n p)))
        by lia.
      generalize (rfind "." p). intros d.
      rewrite Hp at 1. rewrite skip_leading_dots_spec by lia. by rewrite <- Hp.
    - apply Z.leb_gt in E.
      by replace (rfind "/" p <? rfind "." p)%Z with false
        by (symmetry; apply Z.ltb_ge; lia). }
  rewrite Hs. destruct (0 <=? rfind "." c)%Z eqn:E.
  - apply Z.leb_le in E.
    destruct (all_dots (take (Z.to_nat (rfind "." c)) c)) eqn:Ed; simpl.
    + left. split; [by apply strip_dots_all | done].
    + destruct (strip_dots_ext c E Ed) as (stem & r & Hname & Hr & Hdrop).
      right. exists stem, r. split; [done |]. split; [done |].
      rewrite Hdot. replace (Z.to_nat (Z.of_nat n + rfind "." c))
        with (String.length (take n p) + Z.to_nat (rfind "." c)) by lia.
      rewrite Hp at 2. by rewrite drop_app_plus.
  - apply Z.leb_gt in E. simpl. left. split; [| done].
    apply mem_strip_dots, rfind_absent. lia.
Qed.

(** A path has one extension. *)
Lemma extension_of_unique (p e e' : string) :
  extension_of p e → extension_of p e' → e = e'.
Proof.
  unfold extension_of.
  intros [[Hno ->] | (stem & r & Hname & Hr & ->)]
         [[Hno' ->] | (stem' & r' & Hname' & Hr' & ->)]; try done.
  - rewrite Hname', mem_app in Hno. simpl in Hno.
    by rewrite orb_true_r in Hno.
  - rewrite Hname, mem_app in Hno'. simpl in Hno'.
    by rewrite orb_true_r in Hno'.
  - assert (Hl : Z.of_nat (String.length stem) = Z.of_nat (String.length stem')).
    { assert (Hfind : ∀ t s, mem "." s = false →
                rfind "." (t +:+ String "." s) = Z.of_nat (String.length t)).
      { intros t s Hs. rewrite rfind_app. simpl rfind.
        apply rfind_absent in Hs. rewrite Hs. simpl. lia. }
      rewrite <- (Hfind stem r Hr), <- (Hfind stem' r' Hr').
      by rewrite <- Hname, <- Hname'. }
    apply Nat2Z.inj in Hl. rewrite Hname in Hname'.
    by destruct (app_inv_length _ _ _ _ Hl Hname') as [_ ->].
Qed.

(** [extension] computes the extension, and nothing else is one. *)
Lemma extension_iff (p e : string) : extension p = e ↔ extension_of p e.
Proof.
  split.
  - intros <-. apply splitext_spec.
  - intros He. eapply extension_of_unique; [apply splitext_spec | exact He].
Qed.

End SplitextSpec.

(** ** Asset store *)

Section UploadFacts.
Import PyStrFacts PathFacts.

Context {L : StrLower}.

Variable UPLOAD_DIR : string.

Lemma lower_empty : lower "" = "".
Proof. by rewrite (lower_ascii "" eq_refl). Qed.

Lemma lower_shaped (e : string) : ext_shaped e → ext_shaped (lower e).
Proof.
  intros [-> | (r & -> & Hdot & Hsep)].
  - left. apply lower_empty.
  - right. destruct (lower_extension r Hdot Hsep) as (r' & Hr' & ? & ?).
    by exists r'.
Qed.

Lemma safe_ext_of_lower (fname : option string) :
  safe_ext_of fname = lower (extension (default "" fname)).
Proof.
  unfold safe_ext_of, extension.
  destruct (known_ext _);
    destruct (snd (splitext (default "" fname))); simpl;
    by rewrite ?lower_empty.
Qed.

(** The stored name splits into the token and the extension appended to
    it. *)
Lemma splitext_stored (n : N) (fname : option string) :
  splitext (uuid_hex n +:+ safe_ext_of fname) = (uuid_hex n, safe_ext_of fname).
Proof.
  apply splitext_token.
  - apply uuid_hex_nonempty.
  - unfold uuid_hex. by rewrite mem_hex_fixed.
  - unfold uuid_hex. by rewrite mem_hex_fixed.
  - rewrite safe_ext_of_lower. apply lower_shaped, extension_shaped.
Qed.

(** [read] hands out a prefix of the stream and keeps the rest. *)
Lemma read_app (n : N) (s : list Byte.byte) : (read n s).1 ++ (read n s).2 = s.
Proof.
  revert n; induction s as [|b s IH]; intros n; simpl; [done |].
  destruct (n =? 0)%N; [done |].
  specialize (IH (n - 1)%N). destruct (read (n - 1) s) as [chunk rest].
  simpl in *. by rewrite IH.
Qed.

(** On a stream that is not exhausted a read makes progress. *)
Lemma read_progress (b : Byte.byte) (s : list Byte.byte) :
  ∃ chunk rest, read CHUNK (b :: s) = (b :: chunk, rest) ∧ chunk ++ rest = s.
Proof.
  pose proof (read_app (CHUNK - 1) s) as H. simpl.
  destruct (read (CHUNK - 1) s) as [chunk rest]. by exists chunk, rest.
Qed.

(** A copy loop that is left without an error has written the whole
    stream, and needs no more than [length s + 1] reads for it. *)
Lemma copy_loop_clean (faults : nat → option string) (fuel : nat)
    (s out : list Byte.byte) (k : nat) :
  length s < fuel →
  (copy_loop faults fuel s out k).2 = None →
  (copy_loop faults fuel s out k).1 = out ++ s.
Proof.
  revert s out k; induction fuel as [|fuel IH]; intros s out k Hlt; [lia |].
  destruct s as [|b s].
  - simpl. by rewrite List.app_nil_r.
  - destruct (read_progress b s) as (chunk & rest & Hread & <-).
    unfold copy_loop; fold copy_loop. rewrite Hread.
    destruct (faults k); [done |]. intros Hnone.
    rewrite IH; [by rewrite <- List.app_assoc | | done].
    simpl in Hlt. rewrite List.length_app in Hlt. lia.
Qed.

(** Without failing writes the copy loop is left without an error. *)
Lemma copy_loop_complete (faults : nat → option string) (fuel : nat)
    (s out : list Byte.byte) (k : nat) :
  (∀ j, faults j = None) → length s < fuel →
  copy_loop faults fuel s out k = (out ++ s, None).
Proof.
  intros Hok. revert s out k; induction fuel as [|fuel IH]; intros s out k Hlt;
    [lia |].
  destruct s as [|b s].
  - simpl. by rewrite List.app_nil_r.
  - destruct (read_progress b s) as (chunk & rest & Hread & <-).
    unfold copy_loop; fold copy_loop. rewrite Hread, Hok.
    rewrite IH; [by rewrite <- List.app_assoc |].
    simpl in Hlt. rewrite List.length_app in Hlt. lia.
Qed.

Lemma write_upload_Returns (path : string) (s : list Byte.byte) (w w' : World) :
  write_upload path s w = (Returns tt, w') →
  w' = set_disk (<[path := s]> (disk w)) w ∧
  PyStr.mem NUL path = false ∧ os_refuses w path = None.
Proof.
  unfold write_upload.
  destruct (PyStr.mem NUL path); [done |].
  destruct (os_refuses w path); [done |].
  pose proof (copy_loop_clean (write_fails w path) (S (length s)) s [] 0) as Hc.
  destruct (copy_loop _ _ _ _ _) as [written [msg|]]; [done |].
  intros [= <-]. simpl in Hc. rewrite Hc by (lia || done).
  by rewrite insert_insert_eq.
Qed.

Lemma write_upload_accepts (path : string) (s : list Byte.byte) (w : World) :
  accepts w path →
  write_upload path s w = (Returns tt, set_disk (<[path := s]> (disk w)) w).
Proof.
  intros (Hnul & Hos & Hwr). unfold write_upload. rewrite Hnul, Hos.
  rewrite copy_loop_complete by (done || lia). simpl.
  by rewrite insert_insert_eq.
Qed.

Lemma store_one_Returns (base : string) (f : UploadFile) (w w' : World)
    (e : SavedFile) :
  store_one UPLOAD_DIR base f w = (Returns e, w') →
  e = saved_entry base (uuid_hex (uuid_supply w (uuid_drawn w))) f ∧
  w' = stored_one UPLOAD_DIR e f w.
Proof.
  unfold store_one, bind, uuid4_hex, ret, saved_entry, stored_one, storage_path.
  generalize (uuid_hex (uuid_supply w (uuid_drawn w))). intros tok.
  destruct (write_upload _ _ _) as [[[]|ex] w1] eqn:E; [| done].
  apply write_upload_Returns in E as (-> & _ & _).
  intros H. apply pair_equal_spec in H as [He Hw].
  injection He as <-. subst w'. split; reflexivity.
Qed.

Lemma store_one_accepts (base : string) (f : UploadFile) (w : World) :
  let e := saved_entry base (uuid_hex (uuid_supply w (uuid_drawn w))) f in
  accepts w (storage_path UPLOAD_DIR e) →
  store_one UPLOAD_DIR base f w = (Returns e, stored_one UPLOAD_DIR e f w).
Proof.
  intros e Hacc. unfold store_one, bind, uuid4_hex, ret.
  fold (saved_entry base (uuid_hex (uuid_supply w (uuid_drawn w))) f). fold e.
  change (path_join UPLOAD_DIR
            (uuid_hex (uuid_supply w (uuid_drawn w)) +:+ safe_ext_of (filename f)))
    with (storage_path UPLOAD_DIR e).
  rewrite write_upload_accepts by exact Hacc. reflexivity.
Qed.

Lemma upload_entries_cons (base : string) (w w1 : World) (f : UploadFile)
    (fs : list UploadFile) :
  uuid_supply w1 = uuid_supply w → uuid_drawn w1 = S (uuid_drawn w) →
  upload_entries base w (f :: fs) =
    saved_entry base (uuid_hex (uuid_supply w (uuid_drawn w))) f ::
    upload_entries base w1 fs.
Proof.
  intros Hs Hd. unfold upload_entries, tokens_drawn. by rewrite Hs, Hd.
Qed.

Lemma write_all_cons (e : SavedFile) (es : list SavedFile) (f : UploadFile)
    (fs : list UploadFile) (d : gmap string (list Byte.byte)) :
  write_all UPLOAD_DIR (e :: es) (f :: fs) d =
    write_all UPLOAD_DIR es fs (<[storage_path UPLOAD_DIR e := body f]> d).
Proof. reflexivity. Qed.

Lemma world_after_cons (e : SavedFile) (es : list SavedFile) (f : UploadFile)
    (fs : list UploadFile) (w : World) :
  world_after UPLOAD_DIR (e :: es) (f :: fs) w =
    world_after UPLOAD_DIR es fs (stored_one UPLOAD_DIR e f w).
Proof.
  unfold world_after, stored_one. rewrite write_all_cons. simpl. f_equal. lia.
Qed.

Lemma world_after_nil (w : World) : world_after UPLOAD_DIR [] [] w = w.
Proof. destruct w. unfold world_after. simpl. f_equal. lia. Qed.

(** A loop that returns has appended one entry per file, the [i]-th under
    the [i]-th token drawn, and written every file in turn. *)
Lemma store_all_Returns (base : string) (fs : list UploadFile)
    (saved out : list SavedFile) (w w' : World) :
  store_all UPLOAD_DIR base fs saved w = (Returns out, w') →
  out = saved ++ upload_entries base w fs ∧
  w' = world_after UPLOAD_DIR (upload_entries base w fs) fs w.
Proof.
  revert saved w; induction fs as [|f fs IH]; intros saved w.
  - intros [= <- <-]. by rewrite List.app_nil_r, world_after_nil.
  - unfold store_all; fold store_all. unfold bind at 1.
    destruct (store_one UPLOAD_DIR base f w) as [[e|ex] w1] eqn:E; [| done].
    apply store_one_Returns in E as [-> ->]. intros H.
    set (e := saved_entry base (uuid_hex (uuid_supply w (uuid_drawn w))) f) in *.
    apply IH in H as [-> ->].
    rewrite (upload_entries_cons base w (stored_one UPLOAD_DIR e f w)) by done. fold e.
    by rewrite world_after_cons, <- List.app_assoc.
Qed.

Lemma accepts_stored_one (e : SavedFile) (f : UploadFile) (w : World) (p : string) :
  accepts (stored_one UPLOAD_DIR e f w) p ↔ accepts w p.
Proof. done. Qed.

(** When storage takes every path of the batch, the loop returns. *)
Lemma store_all_accepts (base : string) (fs : list UploadFile)
    (saved : list SavedFile) (w : World) :
  Forall (λ e, accepts w (storage_path UPLOAD_DIR e)) (upload_entries base w fs) →
  store_all UPLOAD_DIR base fs saved w =
    (Returns (saved ++ upload_entries base w fs),
     world_after UPLOAD_DIR (upload_entries base w fs) fs w).
Proof.
  revert saved w; induction fs as [|f fs IH]; intros saved w Hacc.
  - unfold store_all, ret. by rewrite List.app_nil_r, world_after_nil.
  - set (e := saved_entry base (uuid_hex (uuid_supply w (uuid_drawn w))) f).
    rewrite (upload_entries_cons base w (stored_one UPLOAD_DIR e f w)) in * by done.
    fold e in Hacc |- *. apply Forall_cons in Hacc as [He Hrest].
    unfold store_all; fold store_all. unfold bind at 1.
    rewrite store_one_accepts by done. fold e.
    rewrite IH by done.
    by rewrite world_after_cons, <- List.app_assoc.
Qed.

Lemma length_tokens_drawn (w : World) (n : nat) : length (tokens_drawn w n) = n.
Proof. unfold tokens_drawn. by rewrite length_fmap, length_seq. Qed.

Lemma length_upload_entries (base : string) (w : World) (fs : list UploadFile) :
  length (upload_entries base w fs) = length fs.
Proof.
  unfold upload_entries. rewrite length_zip_with_r; [done |].
  by rewrite length_tokens_drawn.
Qed.

(** What a successful upload returns. *)
Lemma upload_files_Ok_inv (request : Request) (fs : list UploadFile)
    (w w' : World) (resp : UploadResponse) :
  upload_files UPLOAD_DIR request fs w = (Ok resp, w') →
  let base := PyStr.rstrip "/" (base_url request) in
  fs ≠ [] ∧
  resp = mkUploadResponse (Z.of_nat (length fs)) (upload_entries base w fs) ∧
  w' = world_after UPLOAD_DIR (upload_entries base w fs) fs w.
Proof.
  intros H base. unfold upload_files in H.
  destruct fs as [|f fs]; [done |]. fold base in H.
  destruct (store_all UPLOAD_DIR base (f :: fs) [] w) as [[out|ex] w1] eqn:E;
    [| done].
  apply store_all_Returns in E as [-> ->]. injection H as <- <-.
  split; [done |]. split; [| done].
  f_equal. exact (f_equal Z.of_nat (length_upload_entries base w (f :: fs))).
Qed.

(** When storage takes every path of the batch, the upload succeeds. *)
Lemma upload_files_accepts (request : Request) (fs : list UploadFile) (w : World) :
  let base := PyStr.rstrip "/" (base_url request) in
  fs ≠ [] →
  Forall (λ e, accepts w (storage_path UPLOAD_DIR e)) (upload_entries base w fs) →
  upload_files UPLOAD_DIR request fs w =
    (Ok (mkUploadResponse (Z.of_nat (length fs)) (upload_entries base w fs)),
     world_after UPLOAD_DIR (upload_entries base w fs) fs w).
Proof.
  intros base Hne Hacc. unfold upload_files.
  destruct fs as [|f fs]; [done |]. fold base.
  rewrite store_all_accepts by done.
  cbn [app]. by rewrite length_upload_entries.
Qed.

Lemma tokens_drawn_length32 (w : World) (n : nat) :
  Forall (λ t, String.length t = 32) (tokens_drawn w n).
Proof.
  unfold tokens_drawn. apply Forall_fmap, Forall_forall.
  intros k _. apply length_uuid_hex.
Qed.

(** Names built on distinct tokens of one length [len] are distinct. *)
Lemma stored_names_NoDup (len : nat) (base : string) (toks : list string)
    (fs : list UploadFile) :
  Forall (λ t, String.length t = len) toks → NoDup toks →
  NoDup (stored_as <$> zip_with (saved_entry base) toks fs).
Proof.
  intros Hlen Hnd. revert fs.
  induction Hnd as [|t toks Hnotin Hnd IH]; intros [|f fs]; simpl;
    try by constructor.
  apply Forall_cons in Hlen as [Ht Hlen].
  constructor; [| by apply IH].
  intros Hin. apply list_elem_of_fmap in Hin as (e & He & Hin).
  apply elem_of_zip_with in Hin as (t' & f' & -> & Ht' & _).
  simpl in He. apply Hnotin.
  rewrite Forall_forall in Hlen.
  destruct (app_inv_length t t' (safe_ext_of (filename f))
              (safe_ext_of (filename f'))) as [-> _]; [| done | done].
  by rewrite Ht, (Hlen t' Ht').
Qed.

Lemma extension_stored (base tok : string) (f : UploadFile) (n : N) :
  tok = uuid_hex n →
  extension (stored_as (saved_entry base tok f)) =
    lower (extension (default "" (filename f))).
Proof.
  intros ->. unfold extension at 1.
  change (stored_as (saved_entry base (uuid_hex n) f))
    with (uuid_hex n +:+ safe_ext_of (filename f)).
  by rewrite splitext_stored, <- safe_ext_of_lower.
Qed.

(** A stored name holds no path separator, so the storage path is a direct
    child of the upload directory whatever the client's filename is. *)
Lemma stored_name_no_separator (base : string) (n : N) (f : UploadFile) :
  PyStr.mem "/" (stored_as (saved_entry base (uuid_hex n) f)) = false.
Proof.
  change (stored_as (saved_entry base (uuid_hex n) f))
    with (uuid_hex n +:+ safe_ext_of (filename f)).
  rewrite mem_app. unfold uuid_hex. rewrite mem_hex_fixed by done.
  rewrite safe_ext_of_lower. simpl.
  destruct (lower_shaped _ (extension_shaped (default "" (filename f))))
    as [-> | (r & -> & _ & Hr)]; [done | exact Hr].
Qed.

(** Joining the upload directory and a name without separator puts the
    name right under the directory. *)
Lemma path_join_child (fname : string) :
  PyStr.mem "/" fname = false →
  path_join UPLOAD_DIR fname = as_directory UPLOAD_DIR +:+ fname.
Proof.
  intros Hsep. unfold path_join, as_directory.
  assert (Hrel : match fname with
                 | String "/" _ => fname
                 | _ => if PyStr.falsy UPLOAD_DIR || PyStr.endswith UPLOAD_DIR "/"
                        then UPLOAD_DIR +:+ fname
                        else UPLOAD_DIR +:+ "/" +:+ fname
                 end =
                 if PyStr.falsy UPLOAD_DIR || PyStr.endswith UPLOAD_DIR "/"
                 then UPLOAD_DIR +:+ fname else UPLOAD_DIR +:+ "/" +:+ fname).
  { destruct fname as [|a fname]; [done |].
    simpl in Hsep. apply orb_false_iff in Hsep as [Ha _].
    destruct a as [[] [] [] [] [] [] [] []]; try reflexivity. discriminate Ha. }
  rewrite Hrel.
  destruct UPLOAD_DIR as [|c d] eqn:E; [done |].
  simpl PyStr.falsy. rewrite orb_false_l.
  destruct (PyStr.endswith (String c d) "/"); [done |].
  by rewrite app_assoc.
Qed.

Lemma storage_path_child (fname : string) :
  PyStr.mem "/" fname = false →
  path_join UPLOAD_DIR fname = UPLOAD_DIR +:+ fname ∨
  path_join UPLOAD_DIR fname = UPLOAD_DIR +:+ "/" +:+ fname.
Proof.
  intros Hsep. rewrite path_join_child by done. unfold as_directory.
  destruct UPLOAD_DIR as [|c d]; [by left |]. simpl PyStr.falsy.
  destruct (PyStr.endswith (String c d) "/"); [by left |].
  right. by rewrite app_assoc.
Qed.

(** With a supply of pairwise distinct 128-bit UUIDs the tokens drawn are
    pairwise distinct. *)
Lemma distinct_uuids_distinct_tokens (w : World) (n : nat) :
  (∀ k, (uuid_supply w k < 2 ^ 128)%N) →
  (∀ j k, uuid_supply w j = uuid_supply w k → j = k) →
  NoDup (tokens_drawn w n).
Proof.
  intros Hbound Hinj. unfold tokens_drawn.
  apply NoDup_fmap_2_strong; [| apply NoDup_seq].
  intros j k _ _ Heq. apply Hinj. by apply uuid_hex_inj.
Qed.

Lemma lookup_upload_entries (base : string) (w : World) (fs : list UploadFile)
    (i : nat) (f : UploadFile) (e : SavedFile) :
  fs !! i = Some f → upload_entries base w fs !! i = Some e →
  e = saved_entry base (uuid_hex (uuid_supply w (uuid_drawn w + i))) f ∧
  tokens_drawn w (length fs) !! i =
    Some (uuid_hex (uuid_supply w (uuid_drawn w + i))).
Proof.
  intros Hf He. unfold upload_entries in He.
  apply lookup_zip_with_Some in He as (tok & f' & -> & Htok & Hf').
  assert (f' = f) as -> by congruence.
  pose proof Htok as Htok'. unfold tokens_drawn in Htok.
  apply list_lookup_fmap_Some in Htok as (k & -> & Hk).
  apply lookup_seq in Hk as [-> _]. done.
Qed.

Lemma elem_of_upload_entries (base : string) (w : World) (fs : list UploadFile)
    (e : SavedFile) :
  e ∈ upload_entries base w fs →
  ∃ i f, fs !! i = Some f ∧ upload_entries base w fs !! i = Some e.
Proof.
  intros He. apply list_elem_of_lookup in He as [i Hi]. exists i.
  pose proof Hi as Hi'. unfold upload_entries in Hi.
  apply lookup_zip_with_Some in Hi as (tok & f & _ & _ & Hf). by exists f.
Qed.

End UploadFacts.

Section UploadClaims.
Import PyStrFacts PathFacts SplitextSpec.

Context {L : StrLower}.

Variable UPLOAD_DIR : string.

Lemma storage_takes_entries (base : string) (w : World) (fs : list UploadFile) :
  storage_takes UPLOAD_DIR w fs →
  Forall (λ e, accepts w (storage_path UPLOAD_DIR e)) (upload_entries base w fs).
Proof.
  intros Htakes. apply Forall_forall. intros e He.
  apply elem_of_upload_entries in He as (i & f & Hf & He).
  destruct (lookup_upload_entries _ _ _ _ _ _ Hf He) as [-> Htok].
  specialize (Htakes i f _ Hf Htok).
  unfold storage_path, saved_entry. cbn [stored_as].
  by rewrite safe_ext_of_lower.
Qed.

(** C2 (the code departs from it). The stored name is a generated token
    followed by the extension of the client's filename, and nothing else
    of that filename; but the extension is appended as it is, since both
    branches of the test against [KNOWN_EXTS] yield it.  Evaluated on the
    filename ["../x.b c;$"]: the extension [".b c;$"] is not a known one,
    contains a blank, a semicolon and a dollar sign, and ends the stored
    name unchanged in every answer the upload gives, which it gives
    whenever the file can be opened. *)
Theorem unknown_extension_is_kept (request : Request) (w : World) :
  let tok := uuid_hex (uuid_supply w (uuid_drawn w)) in
  let base := PyStr.rstrip "/" (base_url request) in
  let path := path_join UPLOAD_DIR (tok +:+ ".b c;$") in
  known_ext ".b c;$" = false ∧
  (PyStr.mem " " ".b c;$" && PyStr.mem ";" ".b c;$" && PyStr.mem "$" ".b c;$") = true ∧
  safe_ext_of (Some "../x.b c;$") = ".b c;$" ∧
  (∀ resp,
     (upload_files UPLOAD_DIR request [mkUploadFile (Some "../x.b c;$") None []] w).1 =
       Ok resp →
     resp = mkUploadResponse 1
              [mkSavedFile (Some "../x.b c;$") (tok +:+ ".b c;$")
                 (base +:+ "/uploads/" +:+ tok +:+ ".b c;$") None]) ∧
  (PyStr.mem NUL path = false → os_refuses w path = None →
   (upload_files UPLOAD_DIR request [mkUploadFile (Some "../x.b c;$") None []] w).1 =
     Ok (mkUploadResponse 1
           [mkSavedFile (Some "../x.b c;$") (tok +:+ ".b c;$")
              (base +:+ "/uploads/" +:+ tok +:+ ".b c;$") None])).
Proof.
  intros tok base path.
  assert (Hext : safe_ext_of (Some "../x.b c;$") = ".b c;$").
  { rewrite safe_ext_of_lower.
    change (extension (default "" (Some "../x.b c;$"))) with ".b c;$".
    by rewrite (lower_ascii ".b c;$" eq_refl). }
  split; [reflexivity |]. split; [reflexivity |]. split; [exact Hext |].
  unfold upload_files, store_all, store_one, bind, uuid4_hex, ret.
  cbn [filename body content_type]. rewrite Hext. fold tok. fold path.
  unfold write_upload. cbn [disk os_refuses write_fails].
  split.
  - intros resp. destruct (PyStr.mem NUL path); [done |].
    destruct (os_refuses w path); [done |]. by intros [= <-].
  - intros Hnul Hos. rewrite Hnul, Hos. reflexivity.
Qed.

(** C3 (as amended). Uploading a non-empty sequence of [N] files each of
    which storage takes answers with count [N] and [N] entries, the [i]-th
    for the [i]-th file.  If the tokens drawn for them are pairwise
    distinct, so are the stored names.  The extension of each stored name
    is the lower-cased extension of the original filename, hence empty when
    that filename has no extension or is absent. *)
Theorem upload_stores_every_file (request : Request) (fs : list UploadFile)
    (w : World) :
  fs ≠ [] → storage_takes UPLOAD_DIR w fs →
  ∃ saved w',
    upload_files UPLOAD_DIR request fs w =
      (Ok (mkUploadResponse (Z.of_nat (length fs)) saved), w') ∧
    length saved = length fs ∧
    (NoDup (tokens_drawn w (length fs)) → NoDup (stored_as <$> saved)) ∧
    ∀ i f e, fs !! i = Some f → saved !! i = Some e →
      original e = filename f ∧
      extension (stored_as e) =
        lower (extension (default "" (filename f))) ∧
      (∃ x, extension_of (default "" (filename f)) x ∧
            extension_of (stored_as e) (lower x)) ∧
      (extension (default "" (filename f)) = "" → extension (stored_as e) = "") ∧
      (filename f = None → extension (stored_as e) = "").
Proof.
  intros Hne Htakes.
  set (base := PyStr.rstrip "/" (base_url request)).
  exists (upload_entries base w fs),
         (world_after UPLOAD_DIR (upload_entries base w fs) fs w).
  split; [apply upload_files_accepts; [done | by apply storage_takes_entries] |].
  split; [apply length_upload_entries |]. split.
  { intros Hnd. eapply stored_names_NoDup; [apply tokens_drawn_length32 | done]. }
  intros i f e Hf He.
  destruct (lookup_upload_entries _ _ _ _ _ _ Hf He) as [-> _].
  assert (Hext : extension
                   (stored_as (saved_entry base
                      (uuid_hex (uuid_supply w (uuid_drawn w + i))) f)) =
                 lower (extension (default "" (filename f))))
    by by eapply extension_stored.
  split; [done |]. split; [done |]. split; [| split].
  - exists (extension (default "" (filename f))).
    split; [apply splitext_spec |]. rewrite <- Hext. apply splitext_spec.
  - intros H0. by rewrite Hext, H0, lower_empty.
  - intros H0. by rewrite Hext, H0, lower_empty.
Qed.

(** C8. On an empty sequence of files [upload_files] fails with status
    400 and leaves the world as it found it: no file is written and no
    token is drawn. *)
Theorem empty_upload_rejected (request : Request) (w : World) :
  upload_files UPLOAD_DIR request [] w =
    (HTTPException 400 "No files uploaded", w).
Proof. reflexivity. Qed.

(** X8. Each entry of a successful upload answers for the file at the same
    position: it echoes the filename and the declared content type, its
    stored name is the token drawn for that position followed by the
    lower-cased extension of the filename, and its url is the base address
    without trailing slashes, then [/uploads/], then the stored name. *)
Theorem upload_entry_fields (request : Request) (fs : list UploadFile)
    (w w' : World) (resp : UploadResponse) :
  upload_files UPLOAD_DIR request fs w = (Ok resp, w') →
  ∀ i f e, fs !! i = Some f → files resp !! i = Some e →
    original e = filename f ∧ mime e = content_type f ∧
    (∃ tok x, tokens_drawn w (length fs) !! i = Some tok ∧
              extension_of (default "" (filename f)) x ∧
              stored_as e = tok +:+ lower x) ∧
    url e = PyStr.rstrip "/" (base_url request) +:+ "/uploads/" +:+ stored_as e.
Proof.
  intros H i f e Hf He.
  apply upload_files_Ok_inv in H as (_ & -> & _). simpl in He.
  destruct (lookup_upload_entries _ _ _ _ _ _ Hf He) as [-> Htok].
  split; [done |]. split; [done |]. split; [| done].
  eexists _, (extension (default "" (filename f))).
  split; [exact Htok |]. split; [apply splitext_spec |].
  unfold saved_entry. cbn [stored_as]. by rewrite safe_ext_of_lower.
Qed.

Lemma rstrip_app_sep (b : string) :
  PyStr.rstrip "/" (b +:+ "/") = PyStr.rstrip "/" b.
Proof.
  induction b as [|a b IH]; [done |].
  rewrite app_cons. simpl. by rewrite IH.
Qed.

(** X9. Trailing slashes of the base address do not matter: a request
    reached under [b/] gets the answer, and leaves the world, of the same
    request reached under [b]. *)
Theorem upload_base_trailing_slash (b : string) (fs : list UploadFile) (w : World) :
  upload_files UPLOAD_DIR (mkHttpRequest (b +:+ "/")) fs w =
  upload_files UPLOAD_DIR (mkHttpRequest b) fs w.
Proof.
  unfold upload_files. destruct fs as [|f fs]; [done |].
  cbn [base_url]. by rewrite rstrip_app_sep.
Qed.

Lemma write_all_lookup_ne (es : list SavedFile) (fs : list UploadFile)
    (d : gmap string (list Byte.byte)) (p : string) :
  (∀ e, e ∈ es → p ≠ storage_path UPLOAD_DIR e) →
  write_all UPLOAD_DIR es fs d !! p = d !! p.
Proof.
  revert fs d; induction es as [|e es IH]; intros fs d Hp; [done |].
  destruct fs as [|f fs]; [done |].
  rewrite write_all_cons, IH by (intros e' He'; apply Hp; by right).
  apply lookup_insert_ne. intros Heq. by apply (Hp e); [left |].
Qed.

Lemma write_all_keeps (es : list SavedFile) (fs : list UploadFile)
    (d : gmap string (list Byte.byte)) (p : string) :
  is_Some (d !! p) → is_Some (write_all UPLOAD_DIR es fs d !! p).
Proof.
  revert fs d; induction es as [|e es IH]; intros fs d Hp; [done |].
  destruct fs as [|f fs]; [done |].
  rewrite write_all_cons. apply IH.
  destruct (decide (storage_path UPLOAD_DIR e = p)) as [<- | Hne].
  - rewrite lookup_insert_eq. by eexists.
  - by rewrite lookup_insert_ne.
Qed.

Lemma write_all_written (es : list SavedFile) (fs : list UploadFile)
    (d : gmap string (list Byte.byte)) (e : SavedFile) :
  length es = length fs → e ∈ es →
  is_Some (write_all UPLOAD_DIR es fs d !! storage_path UPLOAD_DIR e).
Proof.
  revert fs d; induction es as [|e0 es IH]; intros fs d Hlen He.
  - by apply elem_of_nil in He.
  - destruct fs as [|f fs]; [done |]. rewrite write_all_cons.
    apply elem_of_cons in He as [-> | He].
    + apply write_all_keeps. rewrite lookup_insert_eq. by eexists.
    + apply IH; [by injection Hlen | done].
Qed.

Lemma write_all_lookup (es : list SavedFile) (fs : list UploadFile)
    (d : gmap string (list Byte.byte)) (i : nat) (e : SavedFile) (f : UploadFile) :
  NoDup (storage_path UPLOAD_DIR <$> es) →
  es !! i = Some e → fs !! i = Some f →
  write_all UPLOAD_DIR es fs d !! storage_path UPLOAD_DIR e = Some (body f).
Proof.
  revert fs d i; induction es as [|e0 es IH]; intros fs d i Hnd He Hf; [done |].
  destruct fs as [|f0 fs]; [done |].
  rewrite fmap_cons in Hnd. apply NoDup_cons in Hnd as [Hnotin Hnd].
  rewrite write_all_cons.
  destruct i as [|i]; simpl in He, Hf.
  - injection He as ->. injection Hf as ->.
    rewrite write_all_lookup_ne; [apply lookup_insert_eq |].
    intros e' He' Heq. apply Hnotin. rewrite Heq.
    by apply list_elem_of_fmap_2.
  - by apply (IH fs _ i).
Qed.

(** X10. Whatever the client's filenames are, no stored name of a
    successful upload holds a path separator, and each file is written
    right under the upload directory: at the directory, a separator unless
    the directory is empty or ends with one, and the stored name; a file is
    there when the upload returns. *)
Theorem upload_no_traversal (request : Request) (fs : list UploadFile)
    (w w' : World) (resp : UploadResponse) :
  upload_files UPLOAD_DIR request fs w = (Ok resp, w') →
  ∀ e, e ∈ files resp →
    PyStr.mem "/" (stored_as e) = false ∧
    storage_path UPLOAD_DIR e = as_directory UPLOAD_DIR +:+ stored_as e ∧
    is_Some (disk w' !! (as_directory UPLOAD_DIR +:+ stored_as e)).
Proof.
  intros H e He.
  apply upload_files_Ok_inv in H as (_ & -> & ->). simpl in He.
  pose proof He as Hin.
  apply elem_of_upload_entries in He as (i & f & Hf & He).
  destruct (lookup_upload_entries _ _ _ _ _ _ Hf He) as [Ee _].
  assert (Hsep : PyStr.mem "/" (stored_as e) = false)
    by (rewrite Ee; apply stored_name_no_separator).
  assert (Hpath : storage_path UPLOAD_DIR e =
                  as_directory UPLOAD_DIR +:+ stored_as e)
    by by apply path_join_child.
  split; [exact Hsep |]. split; [exact Hpath |].
  rewrite <- Hpath. cbn [disk world_after].
  apply write_all_written; [apply length_upload_entries | exact Hin].
Qed.

(** Distinct tokens give distinct storage paths. *)
Lemma storage_paths_NoDup (base : string) (w : World) (fs : list UploadFile) :
  NoDup (tokens_drawn w (length fs)) →
  NoDup (storage_path UPLOAD_DIR <$> upload_entries base w fs).
Proof.
  intros Hnd.
  assert (Hnames : NoDup (stored_as <$> upload_entries base w fs))
    by (eapply stored_names_NoDup; [apply tokens_drawn_length32 | done]).
  assert (Hfree : ∀ x, x ∈ stored_as <$> upload_entries base w fs →
                       PyStr.mem "/" x = false).
  { intros x Hx. apply list_elem_of_fmap in Hx as (e & -> & He).
    apply elem_of_upload_entries in He as (i & f & Hf & He).
    destruct (lookup_upload_entries _ _ _ _ _ _ Hf He) as [-> _].
    apply stored_name_no_separator. }
  change (storage_path UPLOAD_DIR) with (path_join UPLOAD_DIR ∘ stored_as).
  rewrite list_fmap_compose.
  apply NoDup_fmap_2_strong; [| done].
  intros x y Hx Hy Heq. apply Hfree in Hx, Hy.
  rewrite !path_join_child in Heq by done.
  by destruct (app_inv_length _ _ x y eq_refl Heq).
Qed.

(** X11. After a successful upload whose tokens are pairwise distinct,
    every uploaded file is on disk under its storage path, with exactly the
    bytes of its stream (the chunked copy loses nothing, and no later file
    of the batch overwrites it). *)
Theorem upload_contents_on_disk (request : Request) (fs : list UploadFile)
    (w w' : World) (resp : UploadResponse) :
  upload_files UPLOAD_DIR request fs w = (Ok resp, w') →
  NoDup (tokens_drawn w (length fs)) →
  ∀ i f e, fs !! i = Some f → files resp !! i = Some e →
    disk w' !! storage_path UPLOAD_DIR e = Some (body f).
Proof.
  intros H Hnd i f e Hf He.
  apply upload_files_Ok_inv in H as (_ & -> & ->). simpl in He.
  cbn [disk world_after].
  eapply write_all_lookup; [by apply storage_paths_NoDup | exact He | exact Hf].
Qed.

(** X12. An upload touches the disk only at the storage paths it reports:
    every other path holds what it held before.  It draws exactly one token
    per file and leaves the rest of the supply alone. *)
Theorem upload_leaves_other_paths (request : Request) (fs : list UploadFile)
    (w w' : World) (resp : UploadResponse) :
  upload_files UPLOAD_DIR request fs w = (Ok resp, w') →
  (∀ p, (∀ e, e ∈ files resp → p ≠ storage_path UPLOAD_DIR e) →
        disk w' !! p = disk w !! p) ∧
  uuid_drawn w' = uuid_drawn w + length fs ∧
  uuid_supply w' = uuid_supply w.
Proof.
  intros H. apply upload_files_Ok_inv in H as (_ & -> & ->).
  split; [| done]. intros p Hp. cbn [disk world_after].
  by apply write_all_lookup_ne.
Qed.

(** The loop carries its accumulator along: started with [saved] it
    returns [saved] followed by what it returns started with nothing. *)
Lemma store_all_saved (base : string) (fs : list UploadFile)
    (saved : list SavedFile) (w : World) :
  store_all UPLOAD_DIR base fs saved w =
    match store_all UPLOAD_DIR base fs [] w with
    | (Returns out, w') => (Returns (saved ++ out), w')
    | (Raises e, w') => (Raises e, w')
    end.
Proof.
  revert saved w; induction fs as [|f fs IH]; intros saved w.
  - unfold store_all, ret. by rewrite List.app_nil_r.
  - unfold store_all; fold store_all. unfold bind.
    destruct (store_one UPLOAD_DIR base f w) as [[e|ex] w1]; [| done].
    rewrite (IH (saved ++ [e])), (IH ([] ++ [e])).
    destruct (store_all UPLOAD_DIR base fs [] w1) as [[out|ex] w2]; [| done].
    by rewrite <- List.app_assoc.
Qed.

(** Storing a concatenation is storing its parts in turn. *)
Lemma store_all_app (base : string) (fs1 fs2 : list UploadFile)
    (saved : list SavedFile) (w : World) :
  store_all UPLOAD_DIR base (fs1 ++ fs2) saved w =
    match store_all UPLOAD_DIR base fs1 saved w with
    | (Returns out, w') => store_all UPLOAD_DIR base fs2 out w'
    | (Raises e, w') => (Raises e, w')
    end.
Proof.
  revert saved w; induction fs1 as [|f fs1 IH]; intros saved w; [done |].
  rewrite <- List.app_comm_cons.
  unfold store_all; fold store_all. unfold bind.
  destruct (store_one UPLOAD_DIR base f w) as [[e|ex] w1]; [| done].
  apply IH.
Qed.

Lemma upload_files_Ok_store (request : Request) (fs : list UploadFile)
    (w w' : World) (resp : UploadResponse) :
  upload_files UPLOAD_DIR request fs w = (Ok resp, w') →
  fs ≠ [] ∧
  store_all UPLOAD_DIR (PyStr.rstrip "/" (base_url request)) fs [] w =
    (Returns (files resp), w') ∧
  count resp = Z.of_nat (length (files resp)).
Proof.
  unfold upload_files. destruct fs as [|f fs]; [done |].
  destruct (store_all _ _ _ _ _) as [[out|ex] w1]; [| done].
  by intros [= <- <-].
Qed.

(** X13. Uploads compose: sending two batches one after the other gives,
    put together, the answer and the world of sending their concatenation
    at once. *)
Theorem upload_batches_compose (request : Request) (fs1 fs2 : list UploadFile)
    (w w1 w2 : World) (r1 r2 : UploadResponse) :
  upload_files UPLOAD_DIR request fs1 w = (Ok r1, w1) →
  upload_files UPLOAD_DIR request fs2 w1 = (Ok r2, w2) →
  upload_files UPLOAD_DIR request (fs1 ++ fs2) w =
    (Ok (mkUploadResponse (count r1 + count r2) (files r1 ++ files r2)), w2).
Proof.
  intros H1 H2.
  apply upload_files_Ok_store in H1 as (Hne1 & Hs1 & Hc1).
  apply upload_files_Ok_store in H2 as (Hne2 & Hs2 & Hc2).
  unfold upload_files.
  destruct (fs1 ++ fs2) as [|f fs] eqn:E; [by destruct fs1 |]. rewrite <- E.
  rewrite store_all_app, Hs1, store_all_saved, Hs2.
  rewrite Hc1, Hc2, List.length_app. do 3 f_equal. lia.
Qed.

Lemma recognised_ext_ascii (exts : list string) (x : string) :
  exts = video_exts ∨ exts = image_exts → x ∈ exts →
  PyStr.is_ascii x = true ∧ PyStr.ascii_lower x = x.
Proof.
  intros [-> | ->] Hx;
    repeat (apply elem_of_cons in Hx as [-> | Hx]; [by split |]);
    by apply elem_of_nil in Hx.
Qed.

(** A url that ends with a recognised extension is recognised by it. *)
Lemma url_with_ext_matches (exts : list string) (p x : string) :
  exts = video_exts ∨ exts = image_exts → x ∈ exts →
  ends_with_one_of exts (p +:+ x).
Proof.
  intros Hexts Hx.
  destruct (recognised_ext_ascii exts x Hexts Hx) as [Hascii Hfix].
  destruct (lower_ascii_suffix p x Hascii) as [p' Hp'].
  exists x, p'. split; [done |]. by rewrite Hp', Hfix.
Qed.


(** X15. Upload, then preview: a request whose only asset is the url
    reported for an uploaded file with a video extension (in any case) is
    answered with that url, classified "video". *)
Theorem uploaded_video_is_previewed (request : Request) (fs : list UploadFile)
    (w w' : World) (resp : UploadResponse) (req : InstantEditRequest)
    (tpl : Template) (i : nat) (f : UploadFile) (e : SavedFile) :
  upload_files UPLOAD_DIR request fs w = (Ok resp, w') →
  fs !! i = Some f → files resp !! i = Some e →
  PyStr.ascii_lower (extension (default "" (filename f))) ∈ video_exts →
  tpl ∈ TEMPLATES → id tpl = template_id req → assets req = [url e] →
  instant_edit req = Ok (mkResponse tpl "video" (url e) [url e] NOTES).
Proof.
  intros H Hf He Hext Hin Hid Hassets.
  apply upload_files_Ok_inv in H as (_ & -> & _). simpl in He.
  destruct (lookup_upload_entries _ _ _ _ _ _ Hf He) as [Ee _].
  assert (Hascii : PyStr.is_ascii (extension (default "" (filename f))) = true).
  { rewrite <- AsciiLower.is_ascii_lower.
    by apply (recognised_ext_ascii video_exts); [left |]. }
  assert (Hmatch : ends_with_one_of video_exts (url e)).
  { rewrite Ee. unfold saved_entry. cbn [url].
    rewrite safe_ext_of_lower, (lower_ascii _ Hascii).
    rewrite <- 2!app_assoc. apply url_with_ext_matches; [by left | done]. }
  rewrite (instant_edit_valid req tpl) by (done || by rewrite Hassets).
  rewrite Hassets.
  rewrite (select_preview_video _ (url e)); [done |].
  by exists [], [].
Qed.

(** X16. Writing one upload either returns, and then the path holds the
    whole stream, however long it is (the copy loop ends and loses
    nothing), and no other path has changed; or it raises.  It returns
    whenever storage takes the path, and raises [ValueError], changing
    nothing, when the path holds a null character. *)
Theorem write_upload_overwrites (path : string) (stream : list Byte.byte)
    (w : World) :
  (∀ w', write_upload path stream w = (Returns tt, w') →
     disk w' !! path = Some stream ∧
     (∀ p, p ≠ path → disk w' !! p = disk w !! p) ∧
     uuid_supply w' = uuid_supply w ∧ uuid_drawn w' = uuid_drawn w) ∧
  (accepts w path → ∃ w', write_upload path stream w = (Returns tt, w')) ∧
  (PyStr.mem NUL path = true →
     write_upload path stream w = (Raises (ValueError "embedded null byte"), w)).
Proof.
  split; [| split].
  - intros w' H. apply write_upload_Returns in H as (-> & _ & _). simpl.
    split; [apply lookup_insert_eq |]. split; [| done].
    intros p Hp. by apply lookup_insert_ne.
  - intros Hacc. eexists. by apply write_upload_accepts.
  - intros Hnul. unfold write_upload. by rewrite Hnul.
Qed.

End UploadClaims.


(** ** Diagnostics endpoint *)

Section Diagnostics.

Lemma env_truthy_spec (v : option string) :
  env_truthy v = true ↔ ∃ s, v = Some s ∧ s ≠ "".
Proof.
  destruct v as [[|a s]|]; simpl; split; try done.
  - intros (s & [= <-] & Hs). done.
  - intros _. by eexists.
  - by intros (s & ? & _).
Qed.

(** On ASCII text characters are bytes. *)
Lemma take_chars_ascii (n : nat) (s : string) :
  PyStr.is_ascii s = true → PyStr.take_chars n s = PyStr.take n s.
Proof.
  revert n; induction s as [|c s IH]; intros n; [by destruct n |].
  simpl. intros H. apply andb_true_iff in H as [Hc Hs].
  assert (Hcont : PyStr.is_continuation c = false).
  { unfold PyStr.is_continuation. apply N.ltb_lt in Hc.
    apply andb_false_iff. left. apply N.leb_gt. lia. }
  rewrite Hcont. destruct n as [|n]; [done |]. by rewrite IH.
Qed.

(** X17. The two [database_url] and [database_name] fields of the report
    tell only whether the environment variables are set to a non-empty
    value; what the database module did never shows in them. *)
Theorem test_database_env_fields (env : Environment) :
  let r := test_database env in
  (database_url r = Some "✅ Set" ∨ database_url r = Some "❌ Not Set") ∧
  (database_name r = Some "✅ Set" ∨ database_name r = Some "❌ Not Set") ∧
  (database_url r = Some "✅ Set" ↔
     ∃ v, getenv env "DATABASE_URL" = Some v ∧ v ≠ "") ∧
  (database_name r = Some "✅ Set" ↔
     ∃ v, getenv env "DATABASE_NAME" = Some v ∧ v ≠ "").
Proof.
  intros r. unfold r, test_database.
  destruct (probe_database env _) as [r0 [[msg|msg|msg|msg]|]]; simpl;
    rewrite <- !env_truthy_spec;
    destruct (env_truthy (getenv env "DATABASE_URL")),
             (env_truthy (getenv env "DATABASE_NAME"));
    repeat split; auto; discriminate.
Qed.

(** The report before the environment is looked at. *)
Lemma test_database_probe (env : Environment) :
  let r := test_database env in
  ∃ r0 ex,
    probe_database env
      (mkDbReport "✅ Running" "❌ Not Available" None None "Not Connected" []) =
      (r0, ex) ∧
    backend r = backend r0 ∧ connection_status r = connection_status r0 ∧
    collections r = collections r0 ∧
    (ex = None → database r = database r0).
Proof.
  intros r. unfold r, test_database.
  destruct (probe_database env _) as [r0 [[msg|msg|msg|msg]|]];
    by exists r0; eexists.
Qed.

(** X18. The report lists at most ten collections: the first ten the
    database names when the probe finds a database object, reads its name
    and the listing returns; none in every other case. *)
Theorem test_database_collections (env : Environment) :
  let r := test_database env in
  (length (collections r) ≤ 10)%nat ∧
  (∀ cols, probe_lists env cols → collections r = take 10 cols) ∧
  ((∀ cols, ¬ probe_lists env cols) → collections r = []).
Proof.
  intros r. destruct (test_database_probe env) as (r0 & ex & Hp & _ & _ & Hc & _).
  fold r in Hc. rewrite Hc. clear Hc. unfold probe_lists.
  unfold probe_database in Hp.
  destruct (database_module env) as [[db|]|e].
  - destruct (db_name db) as [nm|e] eqn:En.
    + destruct (list_collection_names db) as [cols|e] eqn:El.
      * injection Hp as <- _. simpl.
        split; [rewrite length_take; lia |]. split.
        -- intros cols' (db' & nm' & [= <-] & _ & Hl). congruence.
        -- intros H. destruct (H cols). by exists db, nm.
      * injection Hp as <- _. simpl. split; [lia |]. split; [| done].
        intros cols' (db' & nm' & [= <-] & _ & Hl). congruence.
    + injection Hp as <- _. simpl. split; [lia |]. split; [| done].
      intros cols' (db' & nm' & [= <-] & Hn & _). congruence.
  - injection Hp as <- _. simpl. split; [lia |]. split; [| done].
    by intros cols' (db' & nm' & [=] & _).
  - injection Hp as <- _. simpl. split; [lia |]. split; [| done].
    by intros cols' (db' & nm' & [=] & _).
Qed.

Lemma not_working (prefix msg : string) :
  PyStr.take 3 prefix ≠ PyStr.take 3 "✅ Connected & Working" →
  String.length prefix ≥ 3 →
  prefix +:+ msg ≠ "✅ Connected & Working".
Proof.
  intros Hne Hlen H. apply Hne.
  apply (f_equal (PyStr.take 3)) in H.
  rewrite <- H. clear H Hne.
  destruct prefix as [|a [|b [|c prefix]]]; simpl in Hlen; try lia.
  reflexivity.
Qed.

(** X19. The report always says the backend runs; it says "Connected"
    exactly when the probe finds a database object and reads its name, and
    "Not Connected" otherwise; the database is reported connected and
    working exactly when, moreover, listing its collections returned. *)
Theorem test_database_status (env : Environment) :
  let r := test_database env in
  backend r = "✅ Running" ∧
  (connection_status r = "Connected" ∨ connection_status r = "Not Connected") ∧
  (connection_status r = "Connected" ↔ probe_connects env) ∧
  (database r = "✅ Connected & Working" ↔ ∃ cols, probe_lists env cols).
Proof.
  intros r. unfold r, test_database, probe_database, probe_connects, probe_lists.
  destruct (database_module env) as [[db|]|e].
  - destruct (db_name db) as [nm|e] eqn:En.
    + destruct (list_collection_names db) as [cols|e] eqn:El; simpl.
      * split; [done |]. split; [by left |]. split.
        -- split; [intros _; by exists db, nm | done].
        -- split; [intros _; by exists cols, db, nm | done].
      * split; [done |]. split; [by left |]. split.
        -- split; [intros _; by exists db, nm | done].
        -- split.
           ++ intros H. by apply not_working in H; [| done | simpl; lia].
           ++ intros (cols & db' & nm' & [= <-] & _ & Hl). congruence.
    + assert (Hno : ¬ ∃ db0 name_attr,
                 (Returns (Some db) : outcome (option Database)) =
                   Returns (Some db0) ∧
                 db_name db0 = Returns name_attr).
      { intros (? & ? & [= <-] & ?). congruence. }
      assert (Hno' : ¬ ∃ cols db0 name_attr,
                 (Returns (Some db) : outcome (option Database)) =
                   Returns (Some db0) ∧
                 db_name db0 = Returns name_attr ∧
                 list_collection_names db0 = Returns cols).
      { intros (? & ? & ? & [= <-] & ? & _). congruence. }
      destruct e as [msg|msg|msg|msg]; simpl;
        (split; [done |]); (split; [by right |]);
        (split; [split; [done | by intros ?] |]);
        (split; [| by intros ?]); intros H; try done;
        by apply not_working in H; [| done | simpl; lia].
  - simpl. split; [done |]. split; [by right |]. split.
    + split; [done | by intros (? & ? & [=] & _)].
    + split; [done | by intros (? & ? & ? & [=] & _)].
  - assert (Hno : ¬ ∃ db0 name_attr,
               (Raises e : outcome (option Database)) = Returns (Some db0) ∧
               db_name db0 = Returns name_attr)
      by (by intros (? & ? & ? & _)).
    assert (Hno' : ¬ ∃ cols db0 name_attr,
               (Raises e : outcome (option Database)) = Returns (Some db0) ∧
               db_name db0 = Returns name_attr ∧
               list_collection_names db0 = Returns cols)
      by (by intros (? & ? & ? & ? & _)).
    destruct e as [msg|msg|msg|msg]; simpl;
      (split; [done |]); (split; [by right |]);
      (split; [split; [done | by intros ?] |]);
      (split; [| by intros ?]); intros H; try done;
      by apply not_working in H; [| done | simpl; lia].
Qed.

End Diagnostics.

(** * Witnesses and examples

    The statements above hold for every case mapping with the properties
    of [StrLower]; they are run here with the ASCII one, on ASCII inputs,
    where every such mapping gives the same result. *)

Section Witnesses.

#[local] Existing Instance AsciiLower.ascii_lower_model.

Definition sample_request (tid : string) (urls : list string) : InstantEditRequest :=
  mkRequest tid urls None None None None.

(** A world with an empty disk in which storage never fails. *)
Definition sample_world : World :=
  mkWorld ∅ (λ _, None) (λ _ _, None) (λ k, N.of_nat k * 1000003 + 7)%N 0.

Definition sample_upload (fname : option string) : UploadFile :=
  mkUploadFile fname None [].

Definition sample_http : Request := mkHttpRequest "http://localhost:8000/".

Definition sample_files : list UploadFile :=
  [sample_upload (Some "Holiday.PNG"); sample_upload None].

Definition sample_holiday_entry : SavedFile :=
  mkSavedFile (Some "Holiday.PNG") "00000000000000000000000000000007.png"
    "http://localhost:8000/uploads/00000000000000000000000000000007.png" None.

Definition sample_response : UploadResponse :=
  mkUploadResponse 2
    [sample_holiday_entry;
     mkSavedFile None "000000000000000000000000000f424a"
       "http://localhost:8000/uploads/000000000000000000000000000f424a" None].

Definition sample_world_after : World :=
  (upload_files "/srv/uploads" sample_http sample_files sample_world).2.

Definition sample_clip_file : UploadFile :=
  mkUploadFile (Some "Clip.MP4") (Some "video/mp4") [Byte.x00; Byte.x01].

Definition sample_clip : list UploadFile := [sample_clip_file].

Definition sample_clip_entry : SavedFile :=
  mkSavedFile (Some "Clip.MP4") "000000000000000000000000001e848d.mp4"
    "http://localhost:8000/uploads/000000000000000000000000001e848d.mp4"
    (Some "video/mp4").

Definition sample_clip_response : UploadResponse :=
  mkUploadResponse 1 [sample_clip_entry].

Definition sample_world_final : World :=
  (upload_files "/srv/uploads" sample_http sample_clip sample_world_after).2.

(** A filename whose extension holds a null character. *)
Definition null_name : string := "clip.mp4" +:+ String NUL "".

Definition sample_env : Environment :=
  mkEnvironment
    (Returns (Some (mkDatabase (Returns (Some "media"))
                      (Returns ["assets"; "jobs"]))))
    (λ k, if String.eqb k "DATABASE_URL" then Some "mongodb://db" else None).

(** An environment whose database object raises when its name is read. *)
Definition sample_env_name_raises : Environment :=
  mkEnvironment
    (Returns (Some (mkDatabase (Raises (OtherException "no connection"))
                      (Returns ["assets"; "jobs"]))))
    (λ _, None).

Lemma video_takes_precedence_witness :
  ∃ u, first_such (ends_with_one_of video_exts) ["a.png"; "b.mp4"] u ∧
       instant_edit (sample_request "reel-916-bold" ["a.png"; "b.mp4"]) =
         Ok (mkResponse reel_916_bold "video" u ["a.png"; "b.mp4"] NOTES).
Proof.
  apply (video_takes_precedence
           (sample_request "reel-916-bold" ["a.png"; "b.mp4"]) reel_916_bold).
  - constructor.
  - reflexivity.
  - discriminate.
  - apply Exists_cons_tl, Exists_cons_hd. by apply matches_spec.
Defined.

Lemma unknown_template_not_found_witness :
  instant_edit (sample_request "Reel-916-Bold" []) =
    HTTPException 404 "Template not found".
Proof.
  apply (unknown_template_not_found (sample_request "Reel-916-Bold" [])).
  intros t Ht.
  repeat (apply elem_of_cons in Ht as [-> | Ht]; [discriminate |]).
  by apply elem_of_nil in Ht.
Defined.

Lemma first_image_when_no_video_witness :
  ∃ u, first_such (ends_with_one_of image_exts) ["a.png"; "b.jpg"] u ∧
       instant_edit (sample_request "event-11-pop" ["a.png"; "b.jpg"]) =
         Ok (mkResponse event_11_pop "image" u ["a.png"; "b.jpg"] NOTES).
Proof.
  apply (first_image_when_no_video
           (sample_request "event-11-pop" ["a.png"; "b.jpg"]) event_11_pop).
  - do 2 constructor; constructor.
  - reflexivity.
  - discriminate.
  - repeat constructor; by apply matches_false.
  - apply Exists_cons_hd. by apply matches_spec.
Defined.

Lemma placeholder_when_nothing_matches_witness :
  instant_edit (sample_request "corporate-169-clean" ["a.pdf"]) =
    Ok (mkResponse corporate_169_clean "placeholder" PLACEHOLDER_URL ["a.pdf"] NOTES).
Proof.
  apply (placeholder_when_nothing_matches
           (sample_request "corporate-169-clean" ["a.pdf"]) corporate_169_clean).
  - constructor; constructor.
  - reflexivity.
  - discriminate.
  - repeat constructor. intros [H | H]; revert H; by apply matches_false.
Defined.

Lemma empty_assets_rejected_witness :
  instant_edit (sample_request "reel-916-bold" []) =
    HTTPException 400 "No assets provided".
Proof.
  apply (empty_assets_rejected (sample_request "reel-916-bold" []) reel_916_bold).
  - constructor.
  - reflexivity.
  - reflexivity.
Defined.

(** The query-string example: [.../video.mp4?x=1] is skipped by both passes. *)
Lemma unrecognised_reference_is_skipped_witness :
  matches video_exts "https://cdn.example/video.mp4?x=1" = false ∧
  matches image_exts "https://cdn.example/video.mp4?x=1" = false ∧
  ∀ pre post,
    select_preview (pre ++ "https://cdn.example/video.mp4?x=1" :: post) =
    select_preview (pre ++ post).
Proof.
  apply (unrecognised_reference_is_skipped "https://cdn.example/video.mp4?x=1").
  intros [H | H]; revert H; by apply matches_false.
Defined.

Lemma preview_type_is_classified_witness :
  preview_type (mkResponse reel_916_bold "image" "A.PNG" ["x.txt"; "A.PNG"] NOTES)
    ∈ ["video"; "image"; "placeholder"].
Proof.
  apply (preview_type_is_classified
           (sample_request "reel-916-bold" ["x.txt"; "A.PNG"])
           (mkResponse reel_916_bold "image" "A.PNG" ["x.txt"; "A.PNG"] NOTES)).
  reflexivity.
Defined.

Example spec_example_video :
  select_preview ["a.png"; "b.mp4"] = ("b.mp4", "video").
Proof. reflexivity. Qed.

Example spec_example_image :
  select_preview ["a.png"; "b.jpg"] = ("a.png", "image").
Proof. reflexivity. Qed.

Example spec_example_placeholder :
  select_preview ["a.pdf"] = (PLACEHOLDER_URL, "placeholder").
Proof. reflexivity. Qed.

Example spec_example_query_string :
  select_preview ["https://cdn.example/video.mp4?x=1"] =
    (PLACEHOLDER_URL, "placeholder").
Proof. reflexivity. Qed.

(** The placeholder is a constant of the program; a client may of course
    send that very string as an asset, and it is then skipped like any
    other reference without a recognised extension. *)
Example placeholder_sent_as_asset :
  matches video_exts PLACEHOLDER_URL = false ∧
  matches image_exts PLACEHOLDER_URL = false ∧
  select_preview [PLACEHOLDER_URL] = (PLACEHOLDER_URL, "placeholder").
Proof. by repeat split. Qed.

(** In the sample world storage takes every path without a null
    character. *)
Lemma sample_world_accepts (d : gmap string (list Byte.byte)) (n : nat)
    (p : string) :
  PyStr.mem NUL p = false →
  accepts (mkWorld d (os_refuses sample_world) (write_fails sample_world)
             (uuid_supply sample_world) n) p.
Proof. by intros Hp. Qed.

Lemma sample_files_taken : storage_takes "/srv/uploads" sample_world sample_files.
Proof.
  intros i f tok Hf Htok.
  destruct i as [|[|i]]; [| | done]; vm_compute in Hf, Htok;
    injection Hf as <-; injection Htok as <-;
    (split; [vm_compute; reflexivity | by split]).
Qed.

Lemma unknown_extension_is_kept_witness :
  (upload_files "/srv/uploads" sample_http
     [mkUploadFile (Some "../x.b c;$") None []] sample_world).1 =
    Ok (mkUploadResponse 1
          [mkSavedFile (Some "../x.b c;$")
             "00000000000000000000000000000007.b c;$"
             "http://localhost:8000/uploads/00000000000000000000000000000007.b c;$"
             None]).
Proof.
  apply (unknown_extension_is_kept "/srv/uploads" sample_http sample_world).
  - vm_compute. reflexivity.
  - reflexivity.
Defined.

(** Two uploads into the sample world: the tokens drawn are distinct, so
    the stored names are. *)
Lemma upload_stores_every_file_witness :
  ∃ saved w',
    upload_files "/srv/uploads" sample_http sample_files sample_world =
      (Ok (mkUploadResponse 2 saved), w') ∧
    length saved = 2 ∧
    NoDup (stored_as <$> saved) ∧
    ∀ i f e, sample_files !! i = Some f → saved !! i = Some e →
      extension (stored_as e) = lower (extension (default "" (filename f))).
Proof.
  destruct (upload_stores_every_file "/srv/uploads" sample_http sample_files
              sample_world) as (saved & w' & Hres & Hlen & Hnd & Hext).
  - discriminate.
  - exact sample_files_taken.
  - exists saved, w'. split; [exact Hres |]. split; [exact Hlen |]. split.
    + apply Hnd. apply (bool_decide_unpack _). vm_compute. exact I.
    + intros i f e Hf He. exact (proj1 (proj2 (Hext i f e Hf He))).
Defined.

(** The claim as it was stated fails on a filename whose extension holds a
    null character: [open] raises [ValueError], nothing is answered and
    nothing is written. *)
Lemma upload_null_byte_raises :
  [sample_upload (Some null_name)] ≠ [] ∧
  (upload_files "/srv/uploads" sample_http [sample_upload (Some null_name)]
     sample_world).1 = Raised (ValueError "embedded null byte") ∧
  disk (upload_files "/srv/uploads" sample_http [sample_upload (Some null_name)]
          sample_world).2 = ∅ ∧
  ¬ ∃ saved w',
      upload_files "/srv/uploads" sample_http [sample_upload (Some null_name)]
        sample_world = (Ok (mkUploadResponse 1 saved), w').
Proof.
  assert (H : (upload_files "/srv/uploads" sample_http
                 [sample_upload (Some null_name)] sample_world).1 =
              Raised (ValueError "embedded null byte"))
    by (vm_compute; reflexivity).
  split; [discriminate |]. split; [exact H |]. split; [reflexivity |].
  intros (saved & w' & Hok). rewrite Hok in H. discriminate H.
Qed.

Example upload_example :
  (upload_files "/srv/uploads" sample_http sample_files sample_world).1 =
    Ok sample_response.
Proof. reflexivity. Qed.

Example splitext_examples :
  splitext "archive.tar.GZ" = ("archive.tar", ".GZ") ∧
  splitext ".bashrc" = (".bashrc", "") ∧
  splitext "dir.d/name" = ("dir.d/name", "") ∧
  splitext "../../etc/passwd" = ("../../etc/passwd", "").
Proof. by repeat split. Qed.

Lemma sample_upload_runs :
  upload_files "/srv/uploads" sample_http sample_files sample_world =
    (Ok sample_response, sample_world_after).
Proof. apply injective_projections; reflexivity. Qed.

Lemma sample_clip_runs :
  upload_files "/srv/uploads" sample_http sample_clip sample_world_after =
    (Ok sample_clip_response, sample_world_final).
Proof. apply injective_projections; [vm_compute |]; reflexivity. Qed.

Lemma sample_clip_tokens_distinct :
  NoDup (tokens_drawn sample_world_after (length sample_clip)).
Proof. apply (bool_decide_unpack _). vm_compute. exact I. Qed.

Lemma instant_edit_echo_witness :
  let req := sample_request "event-11-pop" ["a.txt"; "B.JPG"] in
  let resp := mkResponse event_11_pop "image" "B.JPG" ["a.txt"; "B.JPG"] NOTES in
  template resp ∈ TEMPLATES ∧ id (template resp) = template_id req ∧
  used_assets resp = assets req ∧ notes resp = NOTES.
Proof.
  intros req resp. apply (instant_edit_echo req resp). reflexivity.
Defined.

Lemma preview_url_provenance_witness :
  let req := sample_request "event-11-pop" ["a.txt"; "B.JPG"] in
  let resp := mkResponse event_11_pop "image" "B.JPG" ["a.txt"; "B.JPG"] NOTES in
  (preview_url resp ∈ assets req ∧ recognised (preview_url resp) ∧
   preview_type resp ≠ "placeholder") ∨
  (preview_url resp = PLACEHOLDER_URL ∧ preview_type resp = "placeholder" ∧
   Forall (λ v, ¬ recognised v) (assets req)).
Proof.
  intros req resp. apply (preview_url_provenance req resp). reflexivity.
Defined.

Lemma preview_type_iff_witness :
  let req := sample_request "event-11-pop" ["a.txt"; "B.JPG"] in
  let resp := mkResponse event_11_pop "image" "B.JPG" ["a.txt"; "B.JPG"] NOTES in
  (preview_type resp = "video" ↔ Exists (ends_with_one_of video_exts) (assets req)) ∧
  (preview_type resp = "image" ↔
     ¬ Exists (ends_with_one_of video_exts) (assets req) ∧
     Exists (ends_with_one_of image_exts) (assets req)) ∧
  (preview_type resp = "placeholder" ↔ ¬ Exists recognised (assets req)).
Proof.
  intros req resp. apply (preview_type_iff req resp). reflexivity.
Defined.

Lemma preview_type_permutation_witness :
  ∃ resp', instant_edit (sample_request "event-11-pop" ["B.JPG"; "a.txt"]) = Ok resp' ∧
           preview_type resp' = "image" ∧ template resp' = event_11_pop.
Proof.
  apply (preview_type_permutation
           (sample_request "event-11-pop" ["a.txt"; "B.JPG"])
           (sample_request "event-11-pop" ["B.JPG"; "a.txt"])
           (mkResponse event_11_pop "image" "B.JPG" ["a.txt"; "B.JPG"] NOTES)).
  - reflexivity.
  - apply perm_swap.
  - reflexivity.
Defined.

Lemma lowercased_assets_same_preview_witness :
  ∃ resp', instant_edit (sample_request "event-11-pop" ["a.txt"; "b.jpg"]) = Ok resp' ∧
           preview_type resp' = "image" ∧
           ("image" ≠ "placeholder" → preview_url resp' = PyStr.ascii_lower "B.JPG").
Proof.
  apply (lowercased_assets_same_preview
           (sample_request "event-11-pop" ["a.txt"; "B.JPG"])
           (sample_request "event-11-pop" ["a.txt"; "b.jpg"])
           (mkResponse event_11_pop "image" "B.JPG" ["a.txt"; "B.JPG"] NOTES)).
  - reflexivity.
  - reflexivity.
  - reflexivity.
Defined.

Lemma upload_entry_fields_witness :
  original sample_holiday_entry = Some "Holiday.PNG" ∧
  mime sample_holiday_entry = None ∧
  (∃ tok x, tokens_drawn sample_world (length sample_files) !! 0 = Some tok ∧
            extension_of (default "" (Some "Holiday.PNG")) x ∧
            stored_as sample_holiday_entry = tok +:+ lower x) ∧
  url sample_holiday_entry =
    PyStr.rstrip "/" (base_url sample_http) +:+ "/uploads/" +:+
    stored_as sample_holiday_entry.
Proof.
  apply (upload_entry_fields "/srv/uploads" sample_http sample_files
           sample_world sample_world_after sample_response
           sample_upload_runs 0 (sample_upload (Some "Holiday.PNG"))
           sample_holiday_entry).
  - reflexivity.
  - reflexivity.
Defined.

Lemma upload_no_traversal_witness :
  PyStr.mem "/" (stored_as sample_holiday_entry) = false ∧
  storage_path "/srv/uploads" sample_holiday_entry =
    as_directory "/srv/uploads" +:+ stored_as sample_holiday_entry ∧
  is_Some (disk sample_world_after !!
             (as_directory "/srv/uploads" +:+ stored_as sample_holiday_entry)).
Proof.
  apply (upload_no_traversal "/srv/uploads" sample_http sample_files
           sample_world sample_world_after sample_response
           sample_upload_runs sample_holiday_entry).
  constructor.
Defined.

Example upload_path_example :
  as_directory "/srv/uploads" +:+ stored_as sample_holiday_entry =
    "/srv/uploads/00000000000000000000000000000007.png".
Proof. reflexivity. Qed.

Lemma upload_contents_on_disk_witness :
  disk sample_world_final !! storage_path "/srv/uploads" sample_clip_entry =
    Some [Byte.x00; Byte.x01].
Proof.
  apply (upload_contents_on_disk "/srv/uploads" sample_http sample_clip
           sample_world_after sample_world_final sample_clip_response
           sample_clip_runs sample_clip_tokens_distinct 0 sample_clip_file
           sample_clip_entry).
  - reflexivity.
  - reflexivity.
Defined.

Lemma upload_leaves_other_paths_witness :
  disk sample_world_final !! "/srv/uploads/notes.txt" =
    disk sample_world_after !! "/srv/uploads/notes.txt" ∧
  uuid_drawn sample_world_final = uuid_drawn sample_world_after + length sample_clip.
Proof.
  destruct (upload_leaves_other_paths "/srv/uploads" sample_http sample_clip
              sample_world_after sample_world_final sample_clip_response
              sample_clip_runs) as (Hdisk & Hdrawn & _).
  split; [| exact Hdrawn]. apply Hdisk.
  intros e He. apply list_elem_of_singleton in He as ->. discriminate.
Defined.

Lemma upload_batches_compose_witness :
  upload_files "/srv/uploads" sample_http (sample_files ++ sample_clip) sample_world =
    (Ok (mkUploadResponse (count sample_response + count sample_clip_response)
           (files sample_response ++ files sample_clip_response)),
     sample_world_final).
Proof.
  apply (upload_batches_compose "/srv/uploads" sample_http sample_files sample_clip
           sample_world sample_world_after sample_world_final
           sample_response sample_clip_response).
  - exact sample_upload_runs.
  - exact sample_clip_runs.
Defined.


Lemma uploaded_video_is_previewed_witness :
  instant_edit (sample_request "reel-916-bold" [url sample_clip_entry]) =
    Ok (mkResponse reel_916_bold "video" (url sample_clip_entry)
          [url sample_clip_entry] NOTES).
Proof.
  apply (uploaded_video_is_previewed "/srv/uploads" sample_http sample_clip
           sample_world_after sample_world_final sample_clip_response
           (sample_request "reel-916-bold" [url sample_clip_entry])
           reel_916_bold 0 sample_clip_file sample_clip_entry).
  - exact sample_clip_runs.
  - reflexivity.
  - reflexivity.
  - vm_compute. constructor.
  - constructor.
  - reflexivity.
  - reflexivity.
Defined.

Example write_upload_example :
  (write_upload "/srv/uploads/a.bin" [Byte.x00] sample_world).1 = Returns tt ∧
  (write_upload ("/srv/uploads/a" +:+ String NUL "") [Byte.x00] sample_world).1 =
    Raises (ValueError "embedded null byte").
Proof. by split. Qed.

Example test_database_example :
  test_database sample_env =
    mkDbReport "✅ Running" "✅ Connected & Working" (Some "✅ Set")
      (Some "❌ Not Set") "Connected" ["assets"; "jobs"].
Proof. reflexivity. Qed.

(** When reading the name of the database object raises, the probe ends
    there: the listing is never asked for and the report stays at "Not
    Connected". *)
Example test_database_name_raises :
  test_database sample_env_name_raises =
    mkDbReport "✅ Running" "❌ Error: no connection" (Some "❌ Not Set")
      (Some "❌ Not Set") "Not Connected" [].
Proof. reflexivity. Qed.

Example take_chars_example :
  PyStr.take_chars 2 "✅ Set" = "✅ " ∧ PyStr.take_chars 50 "short" = "short".
Proof. by split. Qed.

End Witnesses.

(** The case folding of upper-case ASCII extensions holds for every case
    mapping. *)
Example uppercase_extension_matches {L : StrLower} :
  matches video_exts "CLIP.MP4" = true ∧ matches image_exts "Photo.JpEg" = true.
Proof.
  unfold matches.
  rewrite (lower_ascii "CLIP.MP4" eq_refl), (lower_ascii "Photo.JpEg" eq_refl).
  by split.
Qed.
